(** * Fluxing routines of PypeIt (deprecated/flux.py)

    A shallow embedding of the sensitivity-function, masking,
    extinction and standard-star routines of [deprecated/flux.py].
    Python floats are modelled by exact rationals [Q]; numpy arrays by
    lists, elementwise numpy operations by [map]/[map2]; Python
    exceptions by the error monad [result].  The exponential
    [10 ** x] of the extinction correction is taken over the reals. *)

From Stdlib Require Import String QArith Qabs Qminmax List Bool Lia.
From Stdlib Require Import Reals Qreals Qround Lra Sorted.
Import ListNotations.

Open Scope Q_scope.

(** ** Python exceptions and the error monad *)

Inductive exn : Type :=
| PypeItError   (* raised by [msgs.error] *)
| TypeError     (* Python's own, e.g. on an unexpected keyword argument *)
| ValueError    (* a nearest-neighbour match against an empty catalogue,
                   or an explicit [raise ValueError] *)
| KeyError.     (* indexing a [dict] with a missing key *)

Inductive result (A : Type) : Type :=
| Ok : A -> result A
| Err : exn -> result A.
Arguments Ok {A} _.
Arguments Err {A} _.

Definition bind {A B} (m : result A) (k : A -> result B) : result B :=
  match m with
  | Ok a => k a
  | Err e => Err e
  end.

Notation "x <- m ;; k" := (bind m (fun x => k))
  (at level 61, m at next level, right associativity).

(** Modelled from the spec: [msgs.error] of [pypeit/msgs.py], which is not
    in this source tree.  The spec's error handling lists the failures it
    reports (airmass < 1, missing site coordinates, unidentified standard)
    as hard errors raised immediately. *)
Definition msgs_error {A : Type} : result A := Err PypeItError.

(** [x < y] on floats *)
Definition Qltb (x y : Q) : bool := negb (Qle_bool y x).

(** ** numpy helpers on float arrays *)

Module Np.

(** elementwise binary operation of two arrays of equal length *)
Fixpoint map2 {A B C} (f : A -> B -> C) (l1 : list A) (l2 : list B) : list C :=
  match l1, l2 with
  | a :: l1', b :: l2' => f a b :: map2 f l1' l2'
  | _, _ => []
  end.

Fixpoint insert (x : Q) (l : list Q) : list Q :=
  match l with
  | [] => [x]
  | y :: l' => if Qle_bool x y then x :: l else y :: insert x l'
  end.

(** [np.sort] *)
Fixpoint sort (l : list Q) : list Q :=
  match l with
  | [] => []
  | x :: l' => insert x (sort l')
  end.

(** [np.median]: the middle of the sorted array, or the mean of the two
    middle values for an even length (the empty array, NaN in numpy,
    never occurs below) *)
Definition median (l : list Q) : Q :=
  let s := sort l in
  let n := length s in
  if Nat.even n
  then (nth (Nat.pred (n / 2)) s 0 + nth (n / 2) s 0) / 2
  else nth (n / 2) s 0.

(** [np.roll(a, 1)]: the last element moves to the front *)
Definition roll1 (l : list Q) : list Q :=
  match rev l with
  | [] => []
  | x :: r => x :: rev r
  end.

End Np.

(** ** get_mask: the recombination-line mask [msk_star] *)

Module GetMask.

Definition lines_balm : list Q :=
  [3836.4; 3969.6; 3890.1; 4102.8; 4102.8; 4341.6; 4862.7; 5407.0;
   6564.6; 8224.8; 8239.2].
Definition lines_pasc : list Q :=
  [8203.6; 8440.3; 8469.6; 8504.8; 8547.7; 8600.8; 8667.4; 8752.9;
   8865.2; 9017.4; 9229.0; 9546.0; 10049.4; 10938.1; 12818.1; 18751.0].
Definition lines_brac : list Q :=
  [14584.0; 18174.0; 19446.0; 21655.0; 26252.0; 40512.0].
Definition lines_pfund : list Q :=
  [22788.0; 32961.0; 37395.0; 46525.0; 74578.0].

(** [msk_star[np.abs(wave_star - line) <= BALM_MASK_WID] = False] *)
Definition mask_line (BALM_MASK_WID : Q) (wave_star : list Q) (msk : list bool)
    (line : Q) : list bool :=
  Np.map2 (fun m w => if Qle_bool (Qabs (w - line)) BALM_MASK_WID then false else m)
    msk wave_star.

(** the four [for] loops, one per series, in the order of the source *)
Definition msk_star (wave_star : list Q) (mask_star : bool) (BALM_MASK_WID : Q)
    : list bool :=
  let msk := map (fun _ => true) wave_star in
  if mask_star then
    let msk := fold_left (mask_line BALM_MASK_WID wave_star) lines_balm msk in
    let msk := fold_left (mask_line BALM_MASK_WID wave_star) lines_pasc msk in
    let msk := fold_left (mask_line BALM_MASK_WID wave_star) lines_brac msk in
    fold_left (mask_line BALM_MASK_WID wave_star) lines_pfund msk
  else msk.

Definition all_lines : list Q := lines_balm ++ lines_pasc ++ lines_brac ++ lines_pfund.

(** some line of [ls] lies within [BALM_MASK_WID] of [w] *)
Definition near_any (BALM_MASK_WID : Q) (ls : list Q) (w : Q) : bool :=
  existsb (fun l => Qle_bool (Qabs (w - l)) BALM_MASK_WID) ls.

End GetMask.

(** ** standard_sensfunc: breakpoint spacing of the spline fit *)

Module Breakpoints.

(** [std_pix = np.median(np.abs(wave_obs - np.roll(wave_obs, 1)))] *)
Definition std_pix (wave_obs : list Q) : Q :=
  Np.median (Np.map2 (fun a b => Qabs (a - b)) wave_obs (Np.roll1 wave_obs)).

(** [std_res = np.median(wave_obs/resolution)] *)
Definition std_res (wave_obs : list Q) (resolution : Q) : Q :=
  Np.median (map (fun w => w / resolution) wave_obs).

(** the guard that resets [nresln] *)
Definition adjust_nresln (nresln std_res std_pix : Q) : Q :=
  if Qlt_le_dec (nresln * std_res) std_pix then std_res / std_pix else nresln.

(** [kwargs_bspline = {'bkspace': std_res * nresln}] *)
Definition bkspace (wave_obs : list Q) (resolution nresln : Q) : Q :=
  let sp := std_pix wave_obs in
  let sr := std_res wave_obs resolution in
  sr * adjust_nresln nresln sr sp.

End Breakpoints.

(** ** extinction_correction *)

Module Extinction.

(** An extinction table: its ['wave'] and ['mag_ext'] columns, as pairs,
    in increasing wavelength. *)
Definition table := list (Q * Q).

(** [scipy.interpolate.interp1d(x, y, bounds_error=False, fill_value=0.)]:
    linear interpolation on the segment [x[lo], x[hi]] found by
    [searchsorted] (left side, clipped to the first segment), and
    [fill_value] outside [x[0], x[-1]]. *)
Fixpoint interp_seg (pts : table) (w : Q) : Q :=
  match pts with
  | (x0, y0) :: (((x1, y1) :: _) as rest) =>
      if Qle_bool w x1 then y0 + (y1 - y0) / (x1 - x0) * (w - x0)
      else interp_seg rest w
  | _ => 0
  end.

Definition interp1d_fill0 (pts : table) (w : Q) : Q :=
  match pts with
  | [] => 0
  | (x0, _) :: _ =>
      let xl := fst (last pts (x0, 0)) in
      if Qlt_le_dec w x0 then 0
      else if Qlt_le_dec xl w then 0
      else interp_seg pts w
  end.

(** [mag_ext[lo:hi] = v] *)
Definition set_range (lo hi : nat) (v : Q) (mag : list Q) : list Q :=
  map (fun '(i, m) => if (lo <=? i)%nat && (i <? hi)%nat then v else m)
    (combine (seq 0 (length mag)) mag).

(** "Deal with outside wavelengths": [gdv = np.where(mag_ext > 0.)[0]]
    and the [if]/[elif] chain that follows it. *)
Definition deal_with_outside (mag_ext : list Q) : list Q :=
  let n := length mag_ext in
  let gdv := filter (fun i => negb (Qle_bool (nth i mag_ext 0) 0)) (seq 0 n) in
  match gdv with
  | [] => mag_ext
  | g0 :: _ =>
      if negb (g0 =? 0)%nat then                          (* Low wavelengths *)
        set_range 0 g0 (nth g0 mag_ext 0) mag_ext
      else
        let gl := last gdv g0 in
        if negb (gl =? n - 1)%nat then                    (* High wavelengths *)
          set_range (S gl) n (nth gl mag_ext 0) mag_ext
        else mag_ext
  end.

(** the extinction magnitudes used at the wavelengths [wave] *)
Definition mag_ext_of (wave : list Q) (extinct : table) : list Q :=
  deal_with_outside (map (interp1d_fill0 extinct) wave).

(** [flux_corr = 10.0 ** (0.4 * mag_ext * airmass)] *)
Definition corr (m airmass : Q) : R := Rpower 10 (Q2R (0.4 * m * airmass)).

Definition extinction_correction (wave : list Q) (airmass : Q) (extinct : table)
    : result (list R) :=
  if Qlt_le_dec airmass 1 then msgs_error   (* Bad airmass value *)
  else Ok (map (fun m => corr m airmass) (mag_ext_of wave extinct)).

End Extinction.

(** ** The calibration applier: apply_sensfunc_spec and apply_sensfunc *)

Module Applier.

Local Open Scope R_scope.

(** a numpy comparison array used as a float array: [True] is 1.0 *)
Definition b2R (b : bool) : R := if b then 1 else 0.
Definition Rltb (x y : R) : bool := if Rlt_dec x y then true else false.
Definition Rleb (x y : R) : bool := if Rle_dec x y then true else false.

Definition tell_floor : R := Q2R 1e-10.

(** [sensfunc*(telluric > 1e-10)/(telluric + (telluric < 1e-10))],
    the same expression in [apply_sensfunc] and [apply_sensfunc_spec] *)
Definition telluric_divide (sensfunc telluric : list R) : list R :=
  Np.map2 (fun s t => s * b2R (Rltb tell_floor t) / (t + b2R (Rltb t tell_floor)))
    sensfunc telluric.

Section WithSite.

(** [load_extinction_data(longitude, latitude)]: a catalogue lookup that
    reads the extinction files of the package; [None] when no site lies
    within its tolerance. *)
Variable load_extinction_data : Q -> Q -> option Extinction.table.

(** the sensitivity after the optional telluric division and the optional
    extinction correction: [senstot] in the source *)
Definition senstot (wave : list Q) (sensfunc : list R) (airmass : Q)
    (extinct_correct : bool) (telluric : option (list R))
    (longitude latitude : option Q) : result (list R) :=
  let sensfunc := match telluric with
                  | Some t => telluric_divide sensfunc t
                  | None => sensfunc
                  end in
  if extinct_correct then
    match longitude, latitude with
    | Some lon, Some lat =>
        match load_extinction_data lon lat with
        | Some extinct =>
            ext_corr <- Extinction.extinction_correction wave airmass extinct ;;
            Ok (Np.map2 Rmult sensfunc ext_corr)
        | None =>   (* [extinction_correction] checks the airmass first,
                       then reads [extinct['wave']] on [None] *)
            if Qlt_le_dec airmass 1 then msgs_error else Err TypeError
        end
    | _, _ => msgs_error     (* longitude and latitude needed *)
    end
  else Ok sensfunc.

Record spec_output := {
  flam : list R;
  flam_ivar : list R;
  outmask : list bool }.

Definition apply_sensfunc_spec (wave : list Q) (counts ivar sensfunc : list R)
    (airmass : Q) (exptime : R) (mask : option (list bool))
    (extinct_correct : bool) (telluric : option (list R))
    (longitude latitude : option Q) : result spec_output :=
  let mask := match mask with
              | Some m => m
              | None => map (fun v => Rltb 0 v) ivar
              end in
  st <- senstot wave sensfunc airmass extinct_correct telluric longitude latitude ;;
  Ok {| flam := Np.map2 (fun c s => c * s / exptime) counts st;
        flam_ivar := Np.map2 (fun v s => v / (s / exptime) ^ 2) ivar st;
        outmask := Np.map2 (fun m s => m && Rltb 0 s) mask st |}.

End WithSite.

(** The flux computation of [apply_sensfunc] once [senstot] is known
    (the sensitivity interpolated onto the extraction grid, times the
    extinction correction): the FLAM, FLAM_SIG and FLAM_IVAR columns,
    zeroed where [msk] is set. *)
Record extract_fluxes := {
  FLAM : list R;
  FLAM_SIG : list R;
  FLAM_IVAR : list R }.

Definition apply_sensfunc_fluxes (counts counts_ivar senstot : list R) (exptime : R)
    : extract_fluxes :=
  let flam := Np.map2 (fun c s => c * s / exptime) counts senstot in
  let flam_sig := Np.map2 (fun v s => (s / exptime) / sqrt v) counts_ivar senstot in
  let flam_var := Np.map2 (fun v s => v / (s / exptime) ^ 2) counts_ivar senstot in
  let msk := Np.map2 (fun s v => Rleb s 0 || Rleb v 0) senstot counts_ivar in
  let zero := fun (x : R) (m : bool) => if m then 0 else x in
  {| FLAM := Np.map2 zero flam msk;
     FLAM_SIG := Np.map2 zero flam_sig msk;
     FLAM_IVAR := Np.map2 zero flam_var msk |}.

End Applier.

(** ** find_standard_file: the standard-star resolver *)

Module StdFile.

(** a row of a standard-star table *)
Record star := {
  Name : string;
  RA_2000 : string;
  DEC_2000 : string;
  File : string }.

(** what a loader ([load_xshooter], [load_calspec], [load_esofil]) returns *)
Record std_set := {
  path : string;
  star_tbl : list star }.

Record std_dict := {
  cal_file : string;
  name : string;
  std_source : string;
  std_ra : string;
  std_dec : string }.

Inductive outcome :=
| Found (d : std_dict)
| Checked (b : bool)
| NotFound.

(** the [closest] dictionary: separation (arcmin) and the star's
    name, ra and dec once one has been recorded *)
Record closest_t := {
  csep : Q;
  cstar : option (string * string * string) }.

(** [closest = dict(sep=999 * units.deg)] *)
Definition closest0 : closest_t := {| csep := 999 * 60; cstar := None |}.

(** [os.path.join(path, file)] (posixpath): an absolute [file] replaces
    [path]; no separator is inserted after an empty [path] or one that
    already ends in ['/'] (as the loaders' paths do) *)
Definition os_path_join (p f : string) : string :=
  if String.prefix "/" f then f
  else if String.eqb p "" || String.eqb (String.substring (String.length p - 1) 1 p) "/"
  then (p ++ f)%string
  else (p ++ "/" ++ f)%string.

Section WithQuery.

(** the on-sky separation, in arcmin, between the query coordinates
    [obj_coord] and a catalogued star *)
Variable sep : star -> Q.

(** [match_coordinates_sky(obj_coord, star_coords, nthneighbor=1)]: the
    nearest catalogued star (the first one among equally near ones);
    its separation is [d2d], of which [np.argmin] and indexing pick the
    one value.  An empty catalogue cannot be matched. *)
Definition nearest (tbl : list star) : result star :=
  match tbl with
  | [] => Err ValueError
  | s0 :: rest =>
      Ok (fold_left (fun best s => if Qlt_le_dec (sep s) (sep best) then s else best)
            rest s0)
  end.

(** the [for qq, sset in enumerate(std_sets)] loop; [sets] pairs each
    loaded set with its entry of [std_file_source] *)
Fixpoint search (sets : list (std_set * string)) (toler : Q) (check : bool)
    (closest : closest_t) : result (outcome * closest_t) :=
  match sets with
  | [] => if check then Ok (Checked false, closest) else Ok (NotFound, closest)
  | (sset, source) :: sets' =>
      s <- nearest (star_tbl sset) ;;
      if Qlt_le_dec (sep s) toler then
        if check then Ok (Checked true, closest)
        else Ok (Found {| cal_file := os_path_join (path sset) (File s);
                          name := Name s; std_source := source;
                          std_ra := RA_2000 s; std_dec := DEC_2000 s |}, closest)
      else
        let closest := if Qlt_le_dec (sep s) (csep closest)
                       then {| csep := sep s; cstar := Some (Name s, RA_2000 s, DEC_2000 s) |}
                       else closest in
        search sets' toler check closest
  end.

(** the loop together with its diagnostics ([closest]) *)
Definition find_standard_file_trace (xshooter calspec eso : std_set) (toler : Q)
    (check : bool) : result (outcome * closest_t) :=
  search [(xshooter, "xshooter"%string); (calspec, "calspec"%string); (eso, "eso"%string)]
    toler check closest0.

(** [find_standard_file(ra, dec, toler, check)] with [std_sets =
    [load_xshooter, load_calspec, load_esofil]] already loaded *)
Definition find_standard_file (xshooter calspec eso : std_set) (toler : Q)
    (check : bool) : result outcome :=
  o <- find_standard_file_trace xshooter calspec eso toler check ;; Ok (fst o).

End WithQuery.

(** [toler=20.*units.arcmin] *)
Definition default_toler : Q := 20.

End StdFile.

(** ** generate_sensfunc, generate_sensfunc_old and the get_mask call *)

Module Sensfunc.

Local Open Scope R_scope.

(** keyword-argument values at the [get_mask] call sites *)
Inductive pyval :=
| PBool (b : bool)
| PFloat (q : Q).

(** Python truthiness and [bool] as an [int] *)
Definition as_bool (v : pyval) : bool :=
  match v with PBool b => b | PFloat q => negb (Qeq_bool q 0) end.
Definition as_float (v : pyval) : Q :=
  match v with PBool b => if b then 1%Q else 0%Q | PFloat q => q end.

Record get_mask_args := {
  a_wave_star : list Q;
  a_flux_star : list R;
  a_ivar_star : list R;
  a_mask_star : bool;
  a_mask_tell : bool;
  a_BALM_MASK_WID : Q;
  a_trans_thresh : Q }.

(** the same arguments with another [trans_thresh] *)
Definition with_trans_thresh (a : get_mask_args) (thr : Q) : get_mask_args :=
  {| a_wave_star := a_wave_star a; a_flux_star := a_flux_star a;
     a_ivar_star := a_ivar_star a; a_mask_star := a_mask_star a;
     a_mask_tell := a_mask_tell a; a_BALM_MASK_WID := a_BALM_MASK_WID a;
     a_trans_thresh := thr |}.

(** the signature [get_mask(wave_star, flux_star, ivar_star,
    mask_star=True, mask_tell=True, BALM_MASK_WID=10., trans_thresh=0.9)] *)
Definition get_mask_params : list string :=
  ["wave_star"; "flux_star"; "ivar_star"; "mask_star"; "mask_tell";
   "BALM_MASK_WID"; "trans_thresh"]%string.

Definition kw_lookup (kw : list (string * pyval)) (k : string) : option pyval :=
  option_map snd (find (fun p => String.eqb (fst p) k) kw).

Fixpoint no_dup_keys (kw : list (string * pyval)) : bool :=
  match kw with
  | [] => true
  | (k, _) :: kw' => negb (existsb (fun p => String.eqb (fst p) k) kw') && no_dup_keys kw'
  end.

(** Python's binding of a call with the three arrays passed positionally
    and the keyword arguments [kw]: an unexpected keyword, or a second
    value for a parameter, is a [TypeError] *)
Definition bind_get_mask (wave_star : list Q) (flux_star ivar_star : list R)
    (kw : list (string * pyval)) : result get_mask_args :=
  if negb (forallb (fun p => existsb (String.eqb (fst p)) get_mask_params) kw)
  then Err TypeError      (* got an unexpected keyword argument *)
  else if existsb (fun p => existsb (String.eqb (fst p)) (firstn 3 get_mask_params)) kw
         || negb (no_dup_keys kw)
  then Err TypeError      (* got multiple values for argument *)
  else
    let dflt := fun k d => match kw_lookup kw k with Some v => v | None => d end in
    Ok {| a_wave_star := wave_star; a_flux_star := flux_star; a_ivar_star := ivar_star;
          a_mask_star := as_bool (dflt "mask_star"%string (PBool true));
          a_mask_tell := as_bool (dflt "mask_tell"%string (PBool true));
          a_BALM_MASK_WID := as_float (dflt "BALM_MASK_WID"%string (PFloat 10));
          a_trans_thresh := as_float (dflt "trans_thresh"%string (PFloat 0.9)) |}.

Record sens_dict := {
  sd_wave : list Q;
  sd_sensfunc : list R;
  sd_wave_min : Q;
  sd_wave_max : Q;
  sd_exptime : R;
  sd_airmass : Q;
  sd_std_file : option string;
  sd_std_ra : option string;
  sd_std_dec : option string;
  sd_std_name : string;
  sd_cal_file : string;
  sd_flux_true : list R;
  sd_mask_sens : list bool }.

(** what [get_standard_spectrum] returns *)
Record std_spectrum := {
  ss_std_ra : option string;
  ss_std_dec : option string;
  ss_name : string;
  ss_cal_file : string }.

Section Pipeline.

(** [load_extinction_data] (a catalogue and file lookup) *)
Variable load_extinction_data : Q -> Q -> option Extinction.table.
(** the NIR sky transmission of [get_mask]: the [mktrans_zm_10_10.dat]
    curve convolved to the estimated resolution ([conv2res]) and
    interpolated onto [wave_star] *)
Variable trans_final : list Q -> list Q.
(** [get_standard_spectrum(star_type, star_mag, ra, dec)]; it fails with
    [msgs.error] when the star cannot be resolved *)
Variable get_standard_spectrum : option string -> option Q -> option Q -> option Q ->
  result std_spectrum.
(** the standard star's true flux on [wave_star] ([interp1d] of the
    standard spectrum, or the polynomial fit of it when that one is
    not positive) *)
Variable flux_true_of : std_spectrum -> list Q -> list R.
(** [standard_sensfunc(...)] with the keyword arguments of the call site
    (masks, [poly_norder], [BALM_MASK_WID], [nresln], [telluric],
    [resolution], [polycorrect]); returns [(sensfunc, mask_sens)] *)
Variable standard_sensfunc :
  list Q -> list R -> list R -> list R -> list bool -> list bool -> list bool ->
  nat -> Q -> Q -> bool -> Q -> bool -> list R * list bool.

Definition qmax (l : list Q) : Q := fold_left Qmax l (hd 0%Q l).
Definition qmin (l : list Q) : Q := fold_left Qmin l (hd 0%Q l).

Definition in_band (lo hi w : Q) : bool := Qle_bool lo w && Qle_bool w hi.

(** [get_mask] once its arguments are bound *)
Definition get_mask (a : get_mask_args) : list bool * list bool * list bool :=
  let wave_star := a_wave_star a in
  let n := length wave_star in
  let msk_bad :=
    map (fun '(i, (w, (f, v))) =>
           negb (Applier.Rleb v 0) && negb (Applier.Rleb f 0)
           && negb (i =? 0)%nat && negb (i =? n - 1)%nat
           && negb (Qle_bool w 3000.0))
      (combine (seq 0 n) (combine wave_star (combine (a_flux_star a) (a_ivar_star a)))) in
  let msk_star := GetMask.msk_star wave_star (a_mask_star a) (a_BALM_MASK_WID a) in
  let msk_tell :=
    if a_mask_tell a then
      let tell_opt := fun w => in_band 6270.00 6290.00 w || in_band 6850.00 6960.00 w
                               || in_band 7580.00 7750.00 w || in_band 7160.00 7340.00 w
                               || in_band 8150.00 8250.00 w in
      let m := map (fun w => negb (tell_opt w)) wave_star in
      if Qlt_le_dec 9100.0 (qmax wave_star) then
        Np.map2 (fun b '(w, t) => b && negb (Qltb t (a_trans_thresh a) && Qltb 9100.0 w))
          m (combine wave_star (trans_final wave_star))
      else m
    else map (fun _ => true) wave_star in
  (msk_bad, msk_star, msk_tell).

(** the body shared by both generators up to the [get_mask] call and
    after it, with the keyword arguments the call passes *)
Definition generate_with_get_mask_kw
    (get_mask_kw : Q -> list (string * pyval))
    (wave : list Q) (counts counts_ivar : list R) (airmass : Q) (exptime : R)
    (longitude latitude : Q) (telluric : bool) (star_type : option string)
    (star_mag ra dec : option Q) (std_file : option string) (poly_norder : nat)
    (BALM_MASK_WID nresln resolution : Q) (polycorrect : bool)
    : result sens_dict :=
  let wave_star := wave in
  let flux_star := map (fun c => c / exptime) counts in
  let ivar_star := map (fun v => v * exptime ^ 2) counts_ivar in
  (* with no site, [extinction_correction] checks the airmass before
     reading [extinct['wave']] on [None] *)
  extinct <- match load_extinction_data longitude latitude with
             | Some e => Ok e
             | None => if Qlt_le_dec airmass 1 then msgs_error else Err TypeError
             end ;;
  ext_corr <- Extinction.extinction_correction wave airmass extinct ;;
  let flux_star := Np.map2 Rmult flux_star ext_corr in
  let ivar_star := Np.map2 (fun v e => v / e ^ 2) ivar_star ext_corr in
  std_dict <- get_standard_spectrum star_type star_mag ra dec ;;
  let flux_true := flux_true_of std_dict wave_star in
  args <- bind_get_mask wave_star flux_star ivar_star (get_mask_kw BALM_MASK_WID) ;;
  let '(msk_bad, msk_star, msk_tell) := get_mask args in
  let '(sensfunc, mask_sens) :=
    standard_sensfunc wave_star flux_star ivar_star flux_true msk_bad msk_star msk_tell
      poly_norder BALM_MASK_WID nresln telluric resolution polycorrect in
  Ok {| sd_wave := wave_star; sd_sensfunc := sensfunc;
        sd_wave_min := qmin wave_star; sd_wave_max := qmax wave_star;
        sd_exptime := exptime; sd_airmass := airmass; sd_std_file := std_file;
        sd_std_ra := ss_std_ra std_dict; sd_std_dec := ss_std_dec std_dict;
        sd_std_name := ss_name std_dict; sd_cal_file := ss_cal_file std_dict;
        sd_flux_true := flux_true; sd_mask_sens := mask_sens |}.

(** [get_mask(..., mask_star=True, mask_tell=True,
    BALM_MASK_WID=BALM_MASK_WID, trans_thresh=0.9)] *)
Definition current_kw (BALM_MASK_WID : Q) : list (string * pyval) :=
  [("mask_star", PBool true); ("mask_tell", PBool true);
   ("BALM_MASK_WID", PFloat BALM_MASK_WID); ("trans_thresh", PFloat 0.9)]%string.

(** [get_mask(..., mask_balmer=True, mask_tell=True,
    BALM_MASK_WID=BALM_MASK_WID, trans_thresh=0.9)] *)
Definition old_kw (BALM_MASK_WID : Q) : list (string * pyval) :=
  [("mask_balmer", PBool true); ("mask_tell", PBool true);
   ("BALM_MASK_WID", PFloat BALM_MASK_WID); ("trans_thresh", PFloat 0.9)]%string.

(** [generate_sensfunc(wave, counts, counts_ivar, airmass, exptime,
    longitude, latitude, telluric=True, star_type=None, star_mag=None,
    ra=None, dec=None, std_file=None, poly_norder=4, BALM_MASK_WID=5.,
    nresln=20., resolution=3000., trans_thresh=0.9, polycorrect=True)];
    [trans_thresh] is a parameter, the [get_mask] call passes [0.9] *)
Definition generate_sensfunc
    (wave : list Q) (counts counts_ivar : list R) (airmass : Q) (exptime : R)
    (longitude latitude : Q) (telluric : bool) (star_type : option string)
    (star_mag ra dec : option Q) (std_file : option string) (poly_norder : nat)
    (BALM_MASK_WID nresln resolution trans_thresh : Q) (polycorrect : bool)
    : result sens_dict :=
  generate_with_get_mask_kw current_kw wave counts counts_ivar airmass exptime
    longitude latitude telluric star_type star_mag ra dec std_file poly_norder
    BALM_MASK_WID nresln resolution polycorrect.

(** [generate_sensfunc_old], same signature and body but for the keyword
    [mask_balmer] of its [get_mask] call *)
Definition generate_sensfunc_old
    (wave : list Q) (counts counts_ivar : list R) (airmass : Q) (exptime : R)
    (longitude latitude : Q) (telluric : bool) (star_type : option string)
    (star_mag ra dec : option Q) (std_file : option string) (poly_norder : nat)
    (BALM_MASK_WID nresln resolution trans_thresh : Q) (polycorrect : bool)
    : result sens_dict :=
  generate_with_get_mask_kw old_kw wave counts counts_ivar airmass exptime
    longitude latitude telluric star_type star_mag ra dec std_file poly_norder
    BALM_MASK_WID nresln resolution polycorrect.

End Pipeline.

End Sensfunc.

(** ** find_standard: the brightest object of a list *)

Module FindStandard.

(** [np.argmax]: the index of the first maximum *)
Fixpoint argmax_from (l : list Q) (i bi : nat) (bv : Q) : nat :=
  match l with
  | [] => bi
  | x :: l' => if Qltb bv x then argmax_from l' (S i) i x else argmax_from l' (S i) bi bv
  end.

(** [None] on an empty array, where numpy raises *)
Definition argmax (l : list Q) : option nat :=
  match l with
  | [] => None
  | x :: l' => Some (argmax_from l' 1 0 x)
  end.

(** [medfx]: [0.] for a missing object, else the median of its boxcar
    counts ([spobj.boxcar['COUNTS']]) *)
Definition medfx (specobj_list : list (option (list Q))) : list Q :=
  map (fun spobj => match spobj with
                    | None => 0
                    | Some counts => Np.median counts
                    end) specobj_list.

(** [find_standard(specobj_list)]; [None] is the [except] path, after
    which [mxix] is unbound *)
Definition find_standard (specobj_list : list (option (list Q))) : option nat :=
  argmax (medfx specobj_list).

End FindStandard.

(** ** Real-valued helpers shared by the loaders and the models below *)

Module RMath.

Local Open Scope R_scope.

(** [np.log10] *)
Definition log10 (x : R) : R := ln x / ln 10.

Definition sumR (l : list R) : R := fold_right Rplus 0 l.

(** [interp1d(x, y, bounds_error=False, fill_value=0.)] on float data,
    as [Extinction.interp1d_fill0] *)
Fixpoint interp_segR (pts : list (R * R)) (w : R) : R :=
  match pts with
  | (x0, y0) :: (((x1, y1) :: _) as rest) =>
      if Rle_dec w x1 then y0 + (y1 - y0) / (x1 - x0) * (w - x0)
      else interp_segR rest w
  | _ => 0
  end.

Definition interp1d_fill0R (pts : list (R * R)) (w : R) : R :=
  match pts with
  | [] => 0
  | (x0, _) :: _ =>
      let xl := fst (last pts (x0, 0)) in
      if Rlt_dec w x0 then 0
      else if Rlt_dec xl w then 0
      else interp_segR pts w
  end.

(** [PYPEIT_FLUX_SCALE = 1e-17] *)
Definition PYPEIT_FLUX_SCALE : R := Q2R 1e-17.

End RMath.

(** ** load_standard_file and load_filter_file *)

Module Loaders.

Local Open Scope R_scope.
Import RMath.

(** [load_standard_file(std_dict)]: [fil] is what [glob] finds for
    [std_dict['cal_file'] + '*'], its first file given by the two columns
    the branch reads ([col1]/[col2] of the ascii table, or
    [WAVELENGTH]/[FLUX] of the FITS extension); the result is the
    ['wave'] and ['flux'] stored into [std_dict].  With no file, the
    message ["{:s}".format(fil)] formats a list, a [TypeError]. *)
Definition load_standard_file (fil : option (list (R * R))) (std_source : string)
    : result (list R * list R) :=
  match fil with
  | None => Err TypeError
  | Some std_spec =>
      if String.eqb std_source "xshooter" then
        Ok (map fst std_spec, map (fun p => snd p / PYPEIT_FLUX_SCALE) std_spec)
      else if String.eqb std_source "calspec" then
        Ok (map fst std_spec, map (fun p => snd p / PYPEIT_FLUX_SCALE) std_spec)
      else if String.eqb std_source "eso" then
        Ok (map fst std_spec, map snd std_spec)
      else msgs_error      (* Bad Standard Star Format *)
  end.

(** [load_filter_file(filter)]: [allowed_options] is the ['filter'] column
    of [filter_list.ascii]; [curves f] the ([lam], [Rlam]) samples of the
    extension [f] of [filtercurves.fits] *)
Definition load_filter_file (allowed_options : list string)
    (curves : string -> list (R * R)) (filt : string) : result (list R * list R) :=
  if negb (existsb (String.eqb filt) allowed_options) then msgs_error
  else
    let keep := filter (fun p => Applier.Rltb 0 (snd p)) (curves filt) in
    Ok (map fst keep, map snd keep).

End Loaders.

(** ** scale_in_filter *)

Module ScaleFilter.

Local Open Scope R_scope.
Import RMath.

(** the wavelength, flux and error arrays of an [XSpectrum1D] *)
Record xspectrum := {
  wavelength : list R;
  xflux : list R;
  xsig : list R }.

(** [scale_dict]; an [option] level is a key that may be absent, the
    inner one a value that may be [None] *)
Record scale_dict := {
  sc_filter : string;
  sc_mag : R;
  sc_mag_type : option (option string);
  sc_masks : option (option (list (R * R))) }.

(** [constants.c] in Angstrom per second *)
Definition c_AA : R := Q2R 2.99792458e18.

(** the pixels with [sig > 0], then outside every mask [(mask[0], mask[1])]:
    the ([wave], [flux]) pairs the scale is computed on *)
Definition good_pixels (xspec : xspectrum) (masks : option (option (list (R * R))))
    : list (R * R) :=
  let gd := filter (fun p => Applier.Rltb 0 (snd p))
              (combine (combine (wavelength xspec) (xflux xspec)) (xsig xspec)) in
  let wf := map fst gd in
  match masks with
  | Some (Some ms) =>
      filter (fun p => negb (existsb (fun m => Applier.Rltb (fst m) (fst p)
                                              && Applier.Rltb (fst p) (snd m)) ms)) wf
  | _ => wf
  end.

(** [fnu = wflam * mean_wv**2 / constants.c] in erg/s/cm^2/Hz *)
Definition filter_fnu (fwave trans : list R) (wf : list (R * R)) : R :=
  let allt := map (fun p => interp1d_fill0R (combine fwave trans) (fst p)) wf in
  let wflam := sumR (Np.map2 Rmult (map snd wf) allt) / sumR allt * PYPEIT_FLUX_SCALE in
  let mean_wv := sumR (Np.map2 Rmult fwave trans) / sumR trans in
  wflam * mean_wv ^ 2 / c_AA.

(** [AB = -2.5 * np.log10(fnu) - 48.6] *)
Definition AB_mag (fnu : R) : R := -2.5 * log10 fnu - 48.6.

Section WithFilters.

Variable allowed_options : list string.
Variable curves : string -> list (R * R).

(** [scale_in_filter(xspec, scale_dict)]: the scaled spectrum and the
    scale.  [('mag_type' in d) | (d['mag_type'] is not None)] evaluates
    both operands, so an absent ['mag_type'] is a [KeyError]. *)
Definition scale_in_filter (xspec : xspectrum) (d : scale_dict)
    : result (xspectrum * R) :=
  let wf := good_pixels xspec (sc_masks d) in
  mag_type <- match sc_mag_type d with
              | None => Err KeyError
              | Some mt => Ok mt
              end ;;
  ft <- Loaders.load_filter_file allowed_options curves (sc_filter d) ;;
  let fwave := fst ft in
  let trans := snd ft in
  match mag_type with
  | Some t =>
      if String.eqb t "AB" then
        let AB := AB_mag (filter_fnu fwave trans wf) in
        let Dm := AB - sc_mag d in
        let scale := Rpower 10 (Dm / 2.5) in
        Ok ({| wavelength := wavelength xspec;
               xflux := map (fun f => f * scale) (xflux xspec);
               xsig := map (fun s => s * scale) (xsig xspec) |}, scale)
      else msgs_error      (* Need a magnitude for scaling *)
  | None => msgs_error
  end.

End WithFilters.

End ScaleFilter.

(** ** telluric_params and telluric_sed: the Kurucz model of a star *)

Module Kurucz.

Local Open Scope R_scope.
Import RMath.

(** a row of the Schmidt-Kaler (1982) table *)
Record sk82_row := {
  Sp : string;
  logTeff : Q;
  Teff : Q;
  BV_0 : Q;
  M_V : Q;
  BC : Q;
  M_bol : Q;
  L_Lsol : Q }.

Record tell_param := {
  logR : Q;
  logM : Q;
  logg : R;
  tp_M_V : Q;
  T : Q }.

(** log(g) of the Sun *)
Definition logg_sol : R :=
  log10 (Q2R 6.67259e-8) + log10 (Q2R 1.989e33) - 2 * log10 (Q2R 6.96e10).

(** [telluric_params(sptype)] on the table [sk82_tab] *)
Definition telluric_params (sk82_tab : list sk82_row) (sptype : string)
    : result tell_param :=
  match filter (fun r => String.eqb sptype (Sp r)) sk82_tab with
  | [r] =>
      let logR := (0.2 * (42.26 - M_bol r - 10.0 * logTeff r))%Q in
      let logM := (0.46 - 0.10 * M_bol r)%Q in
      Ok {| logR := logR; logM := logM;
            logg := Q2R logM - 2 * Q2R logR + logg_sol;
            tp_M_V := M_V r; T := Teff r |}
  | _ => Err ValueError      (* Not ready to interpolate yet. *)
  end.

(** [np.argmin] with the comparison [ltb]: the first minimum *)
Fixpoint argmin_from {A} (ltb : A -> A -> bool) (l : list A) (i bi : nat) (bv : A) : nat :=
  match l with
  | [] => bi
  | x :: l' => if ltb x bv then argmin_from ltb l' (S i) i x
               else argmin_from ltb l' (S i) bi bv
  end.

Definition argmin {A} (ltb : A -> A -> bool) (l : list A) : nat :=
  match l with
  | [] => 0
  | x :: l' => argmin_from ltb l' 1 0 x
  end.

Definition arange_from (start step : Q) (n : nat) : list Q :=
  map (fun i => start + inject_Z (Z.of_nat i) * step)%Q (seq 0 n).

(** the temperatures of the Kurucz SEDs *)
Definition Tk : list Q :=
  arange_from 3000 250 28 ++ arange_from 10000 500 6 ++
  arange_from 13000 1000 22 ++ arange_from 35000 2500 7.

(** their surface gravities *)
Definition loggk : list R := map (fun i => INR i * 0.5) (seq 0 11).

(** [constants.pc.cgs] and [constants.R_sun.cgs] *)
Definition parsec : R := Q2R 3.0856775814913673e18.
Definition R_sol : R := Q2R 6.957e10.

(** [telluric_sed(V, sptype)]: [kurucz t g] is the table
    [kp00_{t}.fits.gz], its [WAVELENGTH] column with the column
    [gdict[g]]; the result is [(loglam, flux * flux_factor)] (the
    third returned value, [dict(stellar_type, Vmag)], is unused by the
    caller) *)
Definition telluric_sed (sk82_tab : list sk82_row) (kurucz : Z -> nat -> list (R * R))
    (V : R) (sptype : string) : result (list R * list R) :=
  tell_param <- telluric_params sk82_tab sptype ;;
  let logd := 0.2 * (V - Q2R (tp_M_V tell_param)) + 1.0 in
  let D := parsec * Rpower 10 logd in
  let Rr := R_sol * Rpower 10 (Q2R (logR tell_param)) in
  let flux_factor := (Rr / D) ^ 2 in
  let indT := argmin Qltb (map (fun t => Qabs (t - T tell_param)) Tk) in
  let indg := argmin Applier.Rltb (map (fun g => Rabs (g - logg tell_param)) loggk) in
  let std := kurucz (Qfloor (nth indT Tk 0%Q)) indg in
  Ok (map (fun p => log10 (fst p)) std, map (fun p => snd p * flux_factor) std).

End Kurucz.

(** ** get_standard_spectrum *)

Module StdSpectrum.

Local Open Scope R_scope.
Import RMath.

(** the dictionary it returns *)
Record std_model := {
  m_cal_file : string;
  m_name : string;
  m_std_source : string;
  m_std_ra : option string;
  m_std_dec : option string;
  m_wave : list R;
  m_flux : list R }.

(** [sub in s] on strings *)
Definition contains (sub s : string) : bool :=
  match String.index 0 sub s with Some _ => true | None => false end.

Section Archive.

(** the separation of a catalogued star from the coordinates [ra], [dec] *)
Variable sep_of : string -> string -> StdFile.star -> Q.
(** the three loaded standard sets of [find_standard_file] *)
Variables xshooter calspec eso : StdFile.std_set.
(** the files [glob] finds for a [cal_file] (their first one) *)
Variable std_files : string -> option (list (R * R)).
(** the two columns of [vega_tspectool_vacuum.dat] *)
Variable vega_data : list (R * R).
Variable sk82_tab : list Kurucz.sk82_row.
Variable kurucz : Z -> nat -> list (R * R).

(** [get_standard_spectrum(star_type, star_mag, ra, dec)] *)
Definition get_standard_spectrum (star_type : option string) (star_mag : option R)
    (ra dec : option string) : result std_model :=
  match ra, dec, star_mag, star_type with
  | Some r, Some d, None, None =>
      o <- StdFile.find_standard_file (sep_of r d) xshooter calspec eso
             StdFile.default_toler false ;;
      match o with
      | StdFile.Found sd =>
          wf <- Loaders.load_standard_file (std_files (StdFile.cal_file sd))
                  (StdFile.std_source sd) ;;
          Ok {| m_cal_file := StdFile.cal_file sd; m_name := StdFile.name sd;
                m_std_source := StdFile.std_source sd;
                m_std_ra := Some (StdFile.std_ra sd); m_std_dec := Some (StdFile.std_dec sd);
                m_wave := fst wf; m_flux := snd wf |}
      | _ => msgs_error      (* No spectrum found in our database *)
      end
  | _, _, Some star_mag, Some star_type =>
      if contains "A0" star_type then
        Ok {| m_cal_file := "vega_tspectool_vacuum"; m_name := star_type;
              m_std_source := "vega"; m_std_ra := None; m_std_dec := None;
              m_wave := map fst vega_data;
              m_flux := map (fun p => snd p * Rpower 10 (0.4 * (0.03 - star_mag))
                                      / PYPEIT_FLUX_SCALE) vega_data |}
      else
        sed <- Kurucz.telluric_sed sk82_tab kurucz star_mag star_type ;;
        Ok {| m_cal_file := "KuruczTelluricModel"; m_name := star_type;
              m_std_source := "KuruczModel"; m_std_ra := None; m_std_dec := None;
              m_wave := map (Rpower 10) (fst sed);
              m_flux := map (fun f => f / PYPEIT_FLUX_SCALE) (snd sed) |}
  | _, _, _, _ => msgs_error      (* Insufficient information provided *)
  end.

End Archive.

End StdSpectrum.

(** ** standard_sensfunc: the sensitivity function and its mask *)

Module StdSensfunc.

Local Open Scope R_scope.
Import RMath.

Definition TINY : R := Q2R 1e-15.
Definition MAGFUNC_MAX : R := 25.0.
Definition MAGFUNC_MIN : R := -25.0.

Definition Reqb (x y : R) : bool := if Req_dec_T x y then true else false.

(** [2.5 * np.log10(np.maximum(flux, TINY))] *)
Definition logflux (f : R) : R := 2.5 * log10 (Rmax f TINY).

(** [np.maximum(np.minimum(m, MAGFUNC_MAX), MAGFUNC_MIN)] *)
Definition clip (m : R) : R := Rmax (Rmin m MAGFUNC_MAX) MAGFUNC_MIN.

Definition lines_hydrogen : list Q :=
  [5407.0; 6564.6; 8224.8; 8239.2; 8203.6; 8440.3; 8469.6; 8504.8; 8547.7; 8600.8;
   8667.4; 8752.9; 8865.2; 9017.4; 9229.0; 10049.4; 10938.1; 12818.1; 21655.0]%Q.

(** one pixel of the polynomial corrections: [msk_clean] (with
    [balmer_clean] as [bal]), then the pixels with [ivar <= 0] *)
Definition poly_fix (bal : bool) (m p v : R) : R :=
  let msk_clean := (bal || Reqb m MAGFUNC_MAX || Reqb m MAGFUNC_MIN)
                   && Applier.Rltb MAGFUNC_MIN p && Applier.Rltb p MAGFUNC_MAX in
  let m := if msk_clean then p else m in
  if Applier.Rltb 0 v then m else p.

Definition count_true (l : list bool) : nat := length (filter (fun b => b) l).

Section Fits.

(** [utils.robust_polyfit_djs] on the [msk_fit_sens] pixels and
    [utils.func_val] of its coefficients at every [wave_obs] *)
Variable robust_polyfit_eval : list Q -> list R -> list bool -> nat -> list R.
(** [pydl.iterfit] of the b-spline with spacing [bkspace], its
    breakpoints thinned by [masktot], evaluated at every [wave_obs]
    ([logfit1]) *)
Variable bspline_logfit :
  list Q -> list R -> list R -> list bool -> list bool -> Q -> list R.

(** [standard_sensfunc(wave, flux, ivar, flux_std, msk_bad, msk_star,
    msk_tell, poly_norder=..., BALM_MASK_WID=..., nresln=...,
    telluric=..., resolution=..., polycorrect=...)], returning
    [(sensfunc, masktot)].  Reals are finite, so the [np.isfinite]
    factors are all [True]. *)
Definition standard_sensfunc (wave : list Q) (flux ivar flux_std : list R)
    (msk_bad msk_star msk_tell : option (list bool)) (poly_norder : nat)
    (BALM_MASK_WID nresln : Q) (telluric : bool) (resolution : Q) (polycorrect : bool)
    : list R * list bool :=
  let wave_obs := wave in
  let ones := map (fun _ => true) wave_obs in
  let msk_bad := match msk_bad with Some m => m | None => ones end in
  let msk_tell := match msk_tell with Some m => m | None => ones end in
  let msk_star := match msk_star with Some m => m | None => ones end in
  let logflux_obs := map logflux flux in
  let logflux_std := map logflux flux_std in
  let magfunc := map clip (Np.map2 Rminus logflux_std logflux_obs) in
  let msk_magfunc := map (fun m => Applier.Rltb m (0.99 * MAGFUNC_MAX)
                                   && Applier.Rltb (0.99 * MAGFUNC_MIN) m) magfunc in
  let masktot := Np.map2 andb msk_bad msk_magfunc in
  let logivar_obs := map (fun b : bool => if b then 10.0 ^ 2 else 0) masktot in
  let msk_fit_sens := Np.map2 andb (Np.map2 andb masktot msk_tell) msk_star in
  let magfunc_poly := robust_polyfit_eval wave_obs magfunc msk_fit_sens poly_norder in
  let correct := Qltb (0.5 * inject_Z (Z.of_nat (length msk_fit_sens)))%Q
                      (inject_Z (Z.of_nat (count_true msk_fit_sens))) && polycorrect in
  let magfunc :=
    if correct then
      let balmer_clean := map (GetMask.near_any BALM_MASK_WID lines_hydrogen) wave_obs in
      Np.map2 (fun bm pv => poly_fix (fst bm) (snd bm) (fst pv) (snd pv))
        (combine balmer_clean magfunc) (combine magfunc_poly ivar)
    else magfunc in
  let magfunc :=
    if telluric then magfunc
    else
      let logfit1 := bspline_logfit wave_obs magfunc logivar_obs masktot msk_fit_sens
                       (Breakpoints.bkspace wave_obs resolution nresln) in
      let magfunc := map clip logfit1 in
      if correct then
        Np.map2 (fun m pv => poly_fix false m (fst pv) (snd pv))
          magfunc (combine magfunc_poly ivar)
      else magfunc in
  (map (fun m => Rpower 10 (0.4 * m)) magfunc, masktot).

End Fits.

End StdSensfunc.

(** * Properties *)

(** ** numpy helpers *)

Lemma map2_length {A B C} (f : A -> B -> C) l1 l2 :
  length (Np.map2 f l1 l2) = Nat.min (length l1) (length l2).
Proof.
  revert l2; induction l1 as [|a l1 IH]; intros [|b l2]; simpl; auto.
Qed.

Lemma map2_map2_l {A B C D} (f : C -> B -> D) (g : A -> B -> C) l1 l2 :
  length l1 = length l2 ->
  Np.map2 f (Np.map2 g l1 l2) l2 = Np.map2 (fun a b => f (g a b) b) l1 l2.
Proof.
  revert l2; induction l1 as [|a l1 IH]; intros [|b l2] H; simpl in *;
    try discriminate; auto.
  f_equal; apply IH; congruence.
Qed.

Lemma map2_const_l {A B C} (f : A -> B -> C) (a : A) (l : list B) :
  Np.map2 f (map (fun _ => a) l) l = map (f a) l.
Proof. induction l; simpl; congruence. Qed.

Lemma map2_ext {A B C} (f g : A -> B -> C) l1 l2 :
  (forall a b, f a b = g a b) -> Np.map2 f l1 l2 = Np.map2 g l1 l2.
Proof.
  intros H; revert l2; induction l1; intros [|b l2]; simpl; auto; congruence.
Qed.

(** ** get_mask *)

Section MaskStar.

Variable W : Q.
Variable wave : list Q.

Lemma near_any_cons l ls w :
  GetMask.near_any W (l :: ls) w = Qle_bool (Qabs (w - l)) W || GetMask.near_any W ls w.
Proof. reflexivity. Qed.

Lemma fold_mask_line (ls : list Q) (msk : list bool) :
  length msk = length wave ->
  fold_left (GetMask.mask_line W wave) ls msk =
  Np.map2 (fun m w => m && negb (GetMask.near_any W ls w)) msk wave.
Proof.
  revert msk; induction ls as [|l ls IH]; intros msk Hlen; cbn [fold_left].
  - revert Hlen; generalize wave as wv.
    induction msk as [|m msk IHm]; intros [|w wv] H; simpl in *; try discriminate; auto.
    rewrite andb_true_r; f_equal; auto.
  - rewrite IH.
    + unfold GetMask.mask_line; rewrite map2_map2_l by exact Hlen.
      apply map2_ext; intros m w; cbv beta; rewrite near_any_cons.
      destruct (Qle_bool (Qabs (w - l)) W); destruct m; reflexivity.
    + unfold GetMask.mask_line; rewrite map2_length, Hlen; lia.
Qed.

Lemma msk_star_spec :
  GetMask.msk_star wave true W = map (fun w => negb (GetMask.near_any W GetMask.all_lines w)) wave.
Proof.
  unfold GetMask.msk_star.
  assert (Hl : length (map (fun _ : Q => true) wave) = length wave) by apply length_map.
  rewrite (fold_mask_line GetMask.lines_balm) by exact Hl.
  rewrite (fold_mask_line GetMask.lines_pasc) by (rewrite map2_length; lia).
  rewrite (fold_mask_line GetMask.lines_brac) by (rewrite !map2_length; lia).
  rewrite (fold_mask_line GetMask.lines_pfund) by (rewrite !map2_length; lia).
  rewrite !map2_map2_l by (rewrite ?map2_length; lia).
  rewrite map2_const_l. apply map_ext; intros w.
  unfold GetMask.near_any, GetMask.all_lines; rewrite !existsb_app.
  destruct (existsb _ GetMask.lines_balm), (existsb _ GetMask.lines_pasc),
    (existsb _ GetMask.lines_brac), (existsb _ GetMask.lines_pfund); reflexivity.
Qed.

End MaskStar.

(** C7: with [mask_star=True], [msk_star] is [False] at a pixel exactly when
    its wavelength is within [BALM_MASK_WID] of a catalogued hydrogen line
    (boundary included); with [BALM_MASK_WID=5], 6569.5 is masked and
    6570.7 is not. *)
Theorem get_mask_star_within_width :
  (forall (wave_star : list Q) (BALM_MASK_WID : Q),
     GetMask.msk_star wave_star true BALM_MASK_WID =
     map (fun w => negb (existsb (fun l => Qle_bool (Qabs (w - l)) BALM_MASK_WID)
                               GetMask.all_lines)) wave_star) /\
  GetMask.msk_star [6569.5; 6570.7] true 5 = [false; true].
Proof.
  split.
  - intros; apply msk_star_spec.
  - vm_compute; reflexivity.
Qed.

(** ** standard_sensfunc: breakpoint spacing *)

(** When the guard fires, the spacing becomes [std_res * std_res / std_pix]. *)
Lemma bkspace_when_reset (wave_obs : list Q) (resolution nresln : Q) :
  nresln * Breakpoints.std_res wave_obs resolution < Breakpoints.std_pix wave_obs ->
  Breakpoints.bkspace wave_obs resolution nresln ==
  Breakpoints.std_res wave_obs resolution * Breakpoints.std_res wave_obs resolution
  / Breakpoints.std_pix wave_obs.
Proof.
  intros H. unfold Breakpoints.bkspace, Breakpoints.adjust_nresln.
  destruct (Qlt_le_dec _ _) as [_|Hn]; [|exfalso; apply (Qlt_not_le _ _ H Hn)].
  unfold Qdiv; rewrite Qmult_assoc; reflexivity.
Qed.

(** C1: on the grid [295, 300, 305] A at [resolution=3000] the median
    pixel spacing is [std_pix = 5] and [std_res = 0.1]; [nresln=20]
    violates [nresln*std_res >= std_pix], and the reset
    [nresln = std_res/std_pix] makes the bspline spacing
    [std_res*nresln = 0.002], finer than one pixel. *)
Theorem bkspace_reset_below_pixel :
  Breakpoints.std_pix [295; 300; 305] == 5 /\
  Breakpoints.std_res [295; 300; 305] 3000 == 0.1 /\
  20 * Breakpoints.std_res [295; 300; 305] 3000 < Breakpoints.std_pix [295; 300; 305] /\
  Breakpoints.bkspace [295; 300; 305] 3000 20 == 0.002 /\
  Breakpoints.bkspace [295; 300; 305] 3000 20 < Breakpoints.std_pix [295; 300; 305].
Proof. vm_compute; repeat split; reflexivity. Qed.

(** ** extinction_correction *)

(** C8: an airmass below 1 is refused with [msgs.error], whatever the
    wavelengths and the extinction table, before any correction is
    computed. *)
Theorem extinction_correction_airmass_below_one
    (wave : list Q) (airmass : Q) (extinct : Extinction.table) :
  airmass < 1 ->
  Extinction.extinction_correction wave airmass extinct = msgs_error.
Proof.
  intros H. unfold Extinction.extinction_correction.
  destruct (Qlt_le_dec airmass 1) as [_|Hge]; [reflexivity|].
  exfalso; exact (Qlt_not_le _ _ H Hge).
Qed.

Lemma extinction_correction_ok (wave : list Q) (airmass : Q) (extinct : Extinction.table) :
  1 <= airmass ->
  Extinction.extinction_correction wave airmass extinct =
  Ok (map (fun m => Extinction.corr m airmass) (Extinction.mag_ext_of wave extinct)).
Proof.
  intros H. unfold Extinction.extinction_correction.
  destruct (Qlt_le_dec airmass 1) as [Hlt|_]; [|reflexivity].
  exfalso; exact (Qlt_not_le _ _ Hlt H).
Qed.

Lemma corr_shift (m am1 am2 : Q) :
  Extinction.corr m am2 =
  (Extinction.corr m am1 * Rpower 10 (Q2R (0.4 * m * (am2 - am1))))%R.
Proof.
  unfold Extinction.corr. rewrite <- Rpower_plus, <- Q2R_plus.
  f_equal. apply Qeq_eqR. ring.
Qed.

(** C9: for airmasses [am1, am2 >= 1] both corrections are computed; the
    one at [am1] is [10^(0.4 * mag_ext * am1)] at each wavelength and the
    one at [am2] is it times [10^(0.4 * mag_ext * (am2 - am1))], with
    [mag_ext] the same interpolated magnitudes for both. *)
Theorem extinction_correction_airmass_scaling
    (wave : list Q) (extinct : Extinction.table) (am1 am2 : Q) :
  1 <= am1 -> 1 <= am2 ->
  Extinction.extinction_correction wave am1 extinct =
    Ok (map (fun m => Rpower 10 (Q2R (0.4 * m * am1))) (Extinction.mag_ext_of wave extinct)) /\
  Extinction.extinction_correction wave am2 extinct =
    Ok (map (fun m => Rpower 10 (Q2R (0.4 * m * am1)) * Rpower 10 (Q2R (0.4 * m * (am2 - am1))))%R
            (Extinction.mag_ext_of wave extinct)).
Proof.
  intros H1 H2. split.
  - apply extinction_correction_ok; exact H1.
  - rewrite extinction_correction_ok by exact H2. f_equal.
    apply map_ext; intros m. apply corr_shift.
Qed.

Lemma extinction_correction_airmass_scaling_witness :
  1 <= 1.2 /\ 1 <= 1.5 /\
  Extinction.extinction_correction [4500] 1.2 [(4000, 0.3); (5000, 0.2)] =
    Ok (map (fun m => Rpower 10 (Q2R (0.4 * m * 1.2)))
            (Extinction.mag_ext_of [4500] [(4000, 0.3); (5000, 0.2)])) /\
  Extinction.extinction_correction [4500] 1.5 [(4000, 0.3); (5000, 0.2)] =
    Ok (map (fun m => Rpower 10 (Q2R (0.4 * m * 1.2)) * Rpower 10 (Q2R (0.4 * m * (1.5 - 1.2))))%R
            (Extinction.mag_ext_of [4500] [(4000, 0.3); (5000, 0.2)])).
Proof.
  assert (H1 : 1 <= 1.2) by (vm_compute; discriminate).
  assert (H2 : 1 <= 1.5) by (vm_compute; discriminate).
  split; [exact H1|]. split; [exact H2|].
  exact (extinction_correction_airmass_scaling [4500] [(4000, 0.3); (5000, 0.2)] 1.2 1.5 H1 H2).
Defined.

Lemma extinction_correction_airmass_below_one_witness :
  0.9 < 1 /\ Extinction.extinction_correction [4500] 0.9 [(4000, 0.3); (5000, 0.2)] = msgs_error.
Proof.
  assert (H : 0.9 < 1) by reflexivity.
  split; [exact H|].
  exact (extinction_correction_airmass_below_one [4500] 0.9 [(4000, 0.3); (5000, 0.2)] H).
Defined.

(** C3: a grid that runs past the extinction table on both sides.  The
    low end is held at the first positive magnitude, but the [elif] chain
    never reaches the high-end branch: the last pixel keeps the fill
    value 0 instead of an in-range magnitude, and its correction is 1. *)
Theorem extinction_both_ends_high_not_held :
  let mag := Extinction.mag_ext_of [3000; 4500; 6000] [(4000, 0.3); (5000, 0.2)] in
  length mag = 3%nat /\
  nth 0 mag 0 == 0.25 /\ nth 1 mag 0 == 0.25 /\ nth 2 mag 0 == 0 /\
  ~ nth 2 mag 0 == 0.2 /\ ~ nth 2 mag 0 == 0.25 /\
  exists c0 c1, Extinction.extinction_correction [3000; 4500; 6000] 1.2
                  [(4000, 0.3); (5000, 0.2)] = Ok [c0; c1; 1%R].
Proof.
  cbv zeta. vm_compute Extinction.mag_ext_of.
  repeat split; try (vm_compute; reflexivity); try (vm_compute; discriminate).
  rewrite extinction_correction_ok by (vm_compute; discriminate).
  vm_compute Extinction.mag_ext_of. cbn [map].
  do 2 eexists. do 3 f_equal.
  unfold Extinction.corr. rewrite (Qeq_eqR _ 0) by reflexivity.
  unfold Q2R; cbn [Qnum]. rewrite Rmult_0_l. f_equal; apply Rpower_O; lra.
Qed.

(** ** The calibration applier *)

Lemma Rltb_true (x y : R) : (x < y)%R -> Applier.Rltb x y = true.
Proof. intros H; unfold Applier.Rltb; destruct (Rlt_dec x y); [reflexivity|contradiction]. Qed.

Lemma Rltb_false (x y : R) : (y <= x)%R -> Applier.Rltb x y = false.
Proof. intros H; unfold Applier.Rltb; destruct (Rlt_dec x y); [lra|reflexivity]. Qed.

Lemma Rleb_true (x y : R) : (x <= y)%R -> Applier.Rleb x y = true.
Proof. intros H; unfold Applier.Rleb; destruct (Rle_dec x y); [reflexivity|contradiction]. Qed.

Lemma Rleb_false (x y : R) : (y < x)%R -> Applier.Rleb x y = false.
Proof. intros H; unfold Applier.Rleb; destruct (Rle_dec x y); [lra|reflexivity]. Qed.

Lemma tell_floor_pos : (0 < Applier.tell_floor)%R.
Proof.
  unfold Applier.tell_floor, Q2R; cbn [Qnum Qden].
  apply Rmult_lt_0_compat; [apply IZR_lt; reflexivity|].
  apply Rinv_0_lt_compat, IZR_lt; reflexivity.
Qed.

Lemma telluric_divide_pointwise (s t : R) :
  (0 <= t)%R ->
  (s * Applier.b2R (Applier.Rltb Applier.tell_floor t) / (t + Applier.b2R (Applier.Rltb t Applier.tell_floor)))%R =
  (if Applier.Rltb Applier.tell_floor t then s / t else 0)%R.
Proof.
  intros Ht. pose proof tell_floor_pos as Hf.
  destruct (Rlt_dec Applier.tell_floor t) as [Hlt|Hge].
  - rewrite (Rltb_true _ _ Hlt), (Rltb_false t Applier.tell_floor) by lra.
    unfold Applier.b2R. unfold Rdiv. rewrite Rmult_1_r, Rplus_0_r. reflexivity.
  - rewrite (Rltb_false Applier.tell_floor t) by lra.
    unfold Applier.b2R. unfold Rdiv. rewrite Rmult_0_r, Rmult_0_l. reflexivity.
Qed.

Lemma telluric_divide_spec (sensfunc telluric : list R) :
  Forall (fun t => 0 <= t)%R telluric ->
  Applier.telluric_divide sensfunc telluric =
  Np.map2 (fun s t => if Applier.Rltb Applier.tell_floor t then s / t else 0)%R
    sensfunc telluric.
Proof.
  unfold Applier.telluric_divide. revert telluric.
  induction sensfunc as [|s sf IH]; intros [|t tl] H; cbn [Np.map2]; auto.
  inversion H; subst. f_equal; [apply telluric_divide_pointwise; assumption|].
  apply IH; assumption.
Qed.

(** C4 (as the code has it): with a transmission [t >= 0] the sensitivity
    used is [sensfunc / t] where [t > 1e-10] and 0 where [t <= 1e-10]
    (the transmission is not floored), times the extinction factor when
    extinction correction is on. *)
Theorem senstot_telluric_zeroed (load_extinction_data : Q -> Q -> option Extinction.table)
    (wave : list Q) (sensfunc telluric : list R) (airmass : Q)
    (longitude latitude : option Q) :
  Forall (fun t => 0 <= t)%R telluric ->
  Applier.senstot load_extinction_data wave sensfunc airmass false (Some telluric)
      longitude latitude =
    Ok (Np.map2 (fun s t => if Applier.Rltb Applier.tell_floor t then s / t else 0)%R
          sensfunc telluric) /\
  (forall (lon lat : Q) (extinct : Extinction.table),
     load_extinction_data lon lat = Some extinct -> 1 <= airmass ->
     Applier.senstot load_extinction_data wave sensfunc airmass true (Some telluric)
       (Some lon) (Some lat) =
     Ok (Np.map2 Rmult
           (Np.map2 (fun s t => if Applier.Rltb Applier.tell_floor t then s / t else 0)%R
              sensfunc telluric)
           (map (fun m => Extinction.corr m airmass) (Extinction.mag_ext_of wave extinct)))).
Proof.
  intros Ht. split.
  - unfold Applier.senstot. rewrite telluric_divide_spec by exact Ht. reflexivity.
  - intros lon lat extinct Hload Ham. unfold Applier.senstot.
    rewrite Hload, extinction_correction_ok by exact Ham. cbn [bind].
    rewrite telluric_divide_spec by exact Ht. reflexivity.
Qed.

Lemma senstot_telluric_zeroed_witness :
  Forall (fun t => 0 <= t)%R [0%R; (1/2)%R] /\
  Applier.senstot (fun _ _ => None) [5000; 6000] [2%R; 2%R] 1 false (Some [0%R; (1/2)%R])
      None None =
    Ok (Np.map2 (fun s t => if Applier.Rltb Applier.tell_floor t then s / t else 0)%R
          [2%R; 2%R] [0%R; (1/2)%R]) /\
  (forall (lon lat : Q) (extinct : Extinction.table),
     (fun _ _ => None) lon lat = Some extinct -> 1 <= 1 ->
     Applier.senstot (fun _ _ => None) [5000; 6000] [2%R; 2%R] 1 true (Some [0%R; (1/2)%R])
       (Some lon) (Some lat) =
     Ok (Np.map2 Rmult
           (Np.map2 (fun s t => if Applier.Rltb Applier.tell_floor t then s / t else 0)%R
              [2%R; 2%R] [0%R; (1/2)%R])
           (map (fun m => Extinction.corr m 1) (Extinction.mag_ext_of [5000; 6000] extinct)))).
Proof.
  assert (H : Forall (fun t => 0 <= t)%R [0%R; (1/2)%R])
    by (repeat constructor; lra).
  split; [exact H|].
  exact (senstot_telluric_zeroed (fun _ _ => None) [5000; 6000] [2%R; 2%R] [0%R; (1/2)%R] 1
           None None H).
Defined.

(** C4 counterexample: a zero transmission makes the sensitivity 0, not
    [sensfunc / max(0, 1e-10)]. *)
Lemma senstot_zero_transmission_not_floored :
  Applier.senstot (fun _ _ => None) [5000] [2%R] 1 false (Some [0%R]) None None = Ok [0%R] /\
  Applier.senstot (fun _ _ => None) [5000] [2%R] 1 false (Some [0%R]) None None <>
    Ok [(2 / Rmax 0 Applier.tell_floor)%R].
Proof.
  pose proof tell_floor_pos as Hf.
  assert (E : Applier.senstot (fun _ _ => None) [5000] [2%R] 1 false (Some [0%R]) None None
              = Ok [0%R]).
  { unfold Applier.senstot. rewrite telluric_divide_spec by (repeat constructor; lra).
    cbn [Np.map2]. rewrite Rltb_false by lra. reflexivity. }
  split; [exact E|]. rewrite E. intros Heq. injection Heq as Heq.
  rewrite Rmax_right in Heq by lra.
  assert (0 < 2 / Applier.tell_floor)%R by (apply Rdiv_lt_0_compat; lra). lra.
Qed.

Lemma nth_error_map2 {A B C} (f : A -> B -> C) l1 l2 i a b :
  nth_error l1 i = Some a -> nth_error l2 i = Some b ->
  nth_error (Np.map2 f l1 l2) i = Some (f a b).
Proof.
  revert l2 i; induction l1 as [|x l1 IH]; intros [|y l2] [|i] H1 H2; simpl in *;
    try discriminate.
  - injection H1; injection H2; intros -> ->; reflexivity.
  - apply IH; assumption.
Qed.

Lemma apply_sensfunc_fluxes_masked (counts counts_ivar senstot : list R) (exptime : R) :
  let zero_if := fun (x : R) '(s, v) => if Applier.Rleb s 0 || Applier.Rleb v 0 then 0%R else x in
  Applier.FLAM (Applier.apply_sensfunc_fluxes counts counts_ivar senstot exptime) =
    Np.map2 (fun c sv => zero_if (c * fst sv / exptime)%R sv) counts (combine senstot counts_ivar) /\
  Applier.FLAM_SIG (Applier.apply_sensfunc_fluxes counts counts_ivar senstot exptime) =
    Np.map2 (fun v' sv => zero_if ((fst sv / exptime) / sqrt (snd sv))%R sv)
      counts_ivar (combine senstot counts_ivar) /\
  Applier.FLAM_IVAR (Applier.apply_sensfunc_fluxes counts counts_ivar senstot exptime) =
    Np.map2 (fun v' sv => zero_if (snd sv / (fst sv / exptime) ^ 2)%R sv)
      counts_ivar (combine senstot counts_ivar).
Proof.
  cbv zeta. unfold Applier.apply_sensfunc_fluxes;
    cbn [Applier.FLAM Applier.FLAM_SIG Applier.FLAM_IVAR].
  split; [|split].
  - revert counts_ivar senstot; induction counts as [|c cs IH];
      intros [|v vs] [|s ss]; cbn [Np.map2 combine]; auto.
    f_equal. apply IH.
  - revert senstot; induction counts_ivar as [|v vs IH];
      intros [|s ss]; cbn [Np.map2 combine]; auto.
    f_equal. apply IH.
  - revert senstot; induction counts_ivar as [|v vs IH];
      intros [|s ss]; cbn [Np.map2 combine]; auto.
    f_equal. apply IH.
Qed.

Lemma apply_sensfunc_fluxes_zeroed (counts counts_ivar senstot : list R) (exptime : R)
    (i : nat) (c v s : R) :
  nth_error counts i = Some c -> nth_error counts_ivar i = Some v ->
  nth_error senstot i = Some s -> (s <= 0 \/ v <= 0)%R ->
  nth_error (Applier.FLAM (Applier.apply_sensfunc_fluxes counts counts_ivar senstot exptime)) i
    = Some 0%R /\
  nth_error (Applier.FLAM_SIG (Applier.apply_sensfunc_fluxes counts counts_ivar senstot exptime)) i
    = Some 0%R /\
  nth_error (Applier.FLAM_IVAR (Applier.apply_sensfunc_fluxes counts counts_ivar senstot exptime)) i
    = Some 0%R.
Proof.
  intros Hc Hv Hs Hbad.
  assert (Hm : nth_error (Np.map2 (fun s v => Applier.Rleb s 0 || Applier.Rleb v 0)
                            senstot counts_ivar) i = Some true).
  { rewrite (nth_error_map2 _ _ _ _ _ _ Hs Hv).
    destruct Hbad as [H|H]; [rewrite (Rleb_true s 0 H)|rewrite (Rleb_true v 0 H), orb_true_r];
      reflexivity. }
  unfold Applier.apply_sensfunc_fluxes; cbv zeta;
    cbn [Applier.FLAM Applier.FLAM_SIG Applier.FLAM_IVAR].
  split; [|split].
  - rewrite (nth_error_map2 _ _ _ _ _ _ (nth_error_map2 _ _ _ _ _ _ Hc Hs) Hm); reflexivity.
  - rewrite (nth_error_map2 _ _ _ _ _ _ (nth_error_map2 _ _ _ _ _ _ Hv Hs) Hm); reflexivity.
  - rewrite (nth_error_map2 _ _ _ _ _ _ (nth_error_map2 _ _ _ _ _ _ Hv Hs) Hm); reflexivity.
Qed.

Lemma apply_sensfunc_spec_of_senstot
    (load_extinction_data : Q -> Q -> option Extinction.table) (wave : list Q)
    (counts ivar sensfunc : list R) (airmass : Q) (exptime : R)
    (mask : option (list bool)) (extinct_correct : bool) (telluric : option (list R))
    (longitude latitude : option Q) (st : list R) :
  Applier.senstot load_extinction_data wave sensfunc airmass extinct_correct telluric
    longitude latitude = Ok st ->
  Applier.apply_sensfunc_spec load_extinction_data wave counts ivar sensfunc airmass exptime
    mask extinct_correct telluric longitude latitude =
  Ok {| Applier.flam := Np.map2 (fun c s => c * s / exptime)%R counts st;
        Applier.flam_ivar := Np.map2 (fun v s => v / (s / exptime) ^ 2)%R ivar st;
        Applier.outmask :=
          Np.map2 (fun m s => m && Applier.Rltb 0 s)
            (match mask with Some m => m | None => map (fun v => Applier.Rltb 0 v) ivar end)
            st |}.
Proof. intros H; unfold Applier.apply_sensfunc_spec; rewrite H; reflexivity. Qed.

Ltac solve_R_list :=
  repeat match goal with
         | |- (_ :: _)%list = (_ :: _)%list => f_equal
         end;
  try reflexivity; try (unfold Rdiv; rewrite ?Rinv_1; lra); try field.

Lemma apply_sensfunc_spec_example :
  Applier.apply_sensfunc_spec (fun _ _ => None) [5000; 5001; 5002]
    [10%R; (-5)%R; 20%R] [1%R; 1%R; 0%R] [2%R; 2%R; 2%R] 1 1%R None false None None None =
  Ok {| Applier.flam := [20%R; (-10)%R; 40%R];
        Applier.flam_ivar := [(1/4)%R; (1/4)%R; 0%R];
        Applier.outmask := [true; true; false] |}.
Proof.
  unfold Applier.apply_sensfunc_spec, Applier.senstot. cbn [bind map Np.map2].
  rewrite (Rltb_true 0 1), (Rltb_false 0 0), (Rltb_true 0 2) by lra. cbn [andb].
  f_equal. f_equal; solve_R_list.
Qed.

Lemma apply_sensfunc_fluxes_example :
  Applier.FLAM (Applier.apply_sensfunc_fluxes [10%R; (-5)%R; 20%R] [1%R; 1%R; 0%R]
                  [2%R; 2%R; 2%R] 1%R) = [20%R; (-10)%R; 0%R].
Proof.
  unfold Applier.apply_sensfunc_fluxes; cbn [Applier.FLAM Np.map2].
  rewrite (Rleb_false 2 0), (Rleb_false 1 0), (Rleb_true 0 0) by lra. cbn [orb].
  solve_R_list.
Qed.

(** C2 (as the code has it): [apply_sensfunc] sets FLAM, FLAM_SIG and
    FLAM_IVAR to 0 at every pixel where [senstot <= 0] or [ivar <= 0]
    (and leaves [counts*senstot/exptime], [(senstot/exptime)/sqrt(ivar)]
    and [ivar/(senstot/exptime)**2] at the other pixels);
    [apply_sensfunc_spec] zeroes nothing: whenever it returns, it returns
    [counts*senstot/exptime] and [ivar/(senstot/exptime)**2] at every
    pixel, for the [senstot] it computed, and marks bad pixels only in
    [outmask = mask & (senstot > 0)], [mask] defaulting to [ivar > 0].
    On counts [10,-5,20], ivar [1,1,0], sensitivity [2,2,2], exptime 1 it
    returns flam [20,-10,40], flam_ivar [0.25,0.25,0] and outmask
    [True,True,False], while [apply_sensfunc] gives FLAM [20,-10,0]. *)
Theorem applier_masking_as_coded :
  (forall (counts counts_ivar senstot : list R) (exptime : R),
     (forall (i : nat) (c v s : R),
        nth_error counts i = Some c -> nth_error counts_ivar i = Some v ->
        nth_error senstot i = Some s -> (s <= 0 \/ v <= 0)%R ->
        nth_error (Applier.FLAM (Applier.apply_sensfunc_fluxes counts counts_ivar senstot
                                   exptime)) i = Some 0%R /\
        nth_error (Applier.FLAM_SIG (Applier.apply_sensfunc_fluxes counts counts_ivar senstot
                                       exptime)) i = Some 0%R /\
        nth_error (Applier.FLAM_IVAR (Applier.apply_sensfunc_fluxes counts counts_ivar senstot
                                        exptime)) i = Some 0%R) /\
     let zero_if := fun (x : R) '(s, v) =>
                      if Applier.Rleb s 0 || Applier.Rleb v 0 then 0%R else x in
     Applier.FLAM (Applier.apply_sensfunc_fluxes counts counts_ivar senstot exptime) =
       Np.map2 (fun c sv => zero_if (c * fst sv / exptime)%R sv) counts
         (combine senstot counts_ivar) /\
     Applier.FLAM_SIG (Applier.apply_sensfunc_fluxes counts counts_ivar senstot exptime) =
       Np.map2 (fun v' sv => zero_if ((fst sv / exptime) / sqrt (snd sv))%R sv) counts_ivar
         (combine senstot counts_ivar) /\
     Applier.FLAM_IVAR (Applier.apply_sensfunc_fluxes counts counts_ivar senstot exptime) =
       Np.map2 (fun v' sv => zero_if (snd sv / (fst sv / exptime) ^ 2)%R sv) counts_ivar
         (combine senstot counts_ivar)) /\
  (forall (load_extinction_data : Q -> Q -> option Extinction.table) (wave : list Q)
          (counts ivar sensfunc : list R) (airmass : Q) (exptime : R)
          (mask : option (list bool)) (extinct_correct : bool)
          (telluric : option (list R)) (longitude latitude : option Q) (out : Applier.spec_output),
     Applier.apply_sensfunc_spec load_extinction_data wave counts ivar sensfunc airmass exptime
       mask extinct_correct telluric longitude latitude = Ok out ->
     exists st,
       Applier.senstot load_extinction_data wave sensfunc airmass extinct_correct telluric
         longitude latitude = Ok st /\
       out =
       {| Applier.flam := Np.map2 (fun c s => c * s / exptime)%R counts st;
          Applier.flam_ivar := Np.map2 (fun v s => v / (s / exptime) ^ 2)%R ivar st;
          Applier.outmask :=
            Np.map2 (fun m s => m && Applier.Rltb 0 s)
              (match mask with Some m => m | None => map (fun v => Applier.Rltb 0 v) ivar end)
              st |}) /\
  Applier.apply_sensfunc_spec (fun _ _ => None) [5000; 5001; 5002]
    [10%R; (-5)%R; 20%R] [1%R; 1%R; 0%R] [2%R; 2%R; 2%R] 1 1%R None false None None None =
  Ok {| Applier.flam := [20%R; (-10)%R; 40%R];
        Applier.flam_ivar := [(1/4)%R; (1/4)%R; 0%R];
        Applier.outmask := [true; true; false] |} /\
  Applier.FLAM (Applier.apply_sensfunc_fluxes [10%R; (-5)%R; 20%R] [1%R; 1%R; 0%R]
                  [2%R; 2%R; 2%R] 1%R) = [20%R; (-10)%R; 0%R].
Proof.
  split; [|split; [|split]].
  - intros counts counts_ivar senstot exptime. split.
    + intros i c v s; apply apply_sensfunc_fluxes_zeroed.
    + apply apply_sensfunc_fluxes_masked.
  - intros load wave counts ivar sensfunc airmass exptime mask ec tel lon lat out H.
    destruct (Applier.senstot load wave sensfunc airmass ec tel lon lat) as [st|e] eqn:E.
    + exists st. split; [reflexivity|].
      rewrite (apply_sensfunc_spec_of_senstot load wave counts ivar sensfunc airmass exptime
                 mask ec tel lon lat st E) in H.
      symmetry. exact (f_equal (fun r => match r with Ok x => x | Err _ => out end) H).
    + unfold Applier.apply_sensfunc_spec in H. rewrite E in H. discriminate.
  - exact apply_sensfunc_spec_example.
  - exact apply_sensfunc_fluxes_example.
Qed.

Lemma applier_masking_as_coded_witness :
  (nth_error [10%R; (-5)%R; 20%R] 2 = Some 20%R /\ nth_error [1%R; 1%R; 0%R] 2 = Some 0%R /\
   nth_error [2%R; 2%R; 2%R] 2 = Some 2%R /\ (2 <= 0 \/ 0 <= 0)%R /\
   nth_error (Applier.FLAM (Applier.apply_sensfunc_fluxes [10%R; (-5)%R; 20%R]
                              [1%R; 1%R; 0%R] [2%R; 2%R; 2%R] 1%R)) 2 = Some 0%R /\
   nth_error (Applier.FLAM_SIG (Applier.apply_sensfunc_fluxes [10%R; (-5)%R; 20%R]
                                  [1%R; 1%R; 0%R] [2%R; 2%R; 2%R] 1%R)) 2 = Some 0%R /\
   nth_error (Applier.FLAM_IVAR (Applier.apply_sensfunc_fluxes [10%R; (-5)%R; 20%R]
                                   [1%R; 1%R; 0%R] [2%R; 2%R; 2%R] 1%R)) 2 = Some 0%R) /\
  exists out,
    Applier.apply_sensfunc_spec (fun _ _ => Some [(4000, 0.3); (6000, 0.2)]) [5000; 5500]
      [10%R; 20%R] [1%R; 0%R] [2%R; 2%R] 1 1%R None true None (Some 0) (Some 0) = Ok out /\
    exists st,
      Applier.senstot (fun _ _ => Some [(4000, 0.3); (6000, 0.2)]) [5000; 5500] [2%R; 2%R] 1
        true None (Some 0) (Some 0) = Ok st /\
      out =
      {| Applier.flam := Np.map2 (fun c s => c * s / 1)%R [10%R; 20%R] st;
         Applier.flam_ivar := Np.map2 (fun v s => v / (s / 1) ^ 2)%R [1%R; 0%R] st;
         Applier.outmask :=
           Np.map2 (fun m s => m && Applier.Rltb 0 s)
             (map (fun v => Applier.Rltb 0 v) [1%R; 0%R]) st |}.
Proof.
  assert (H1 : nth_error [10%R; (-5)%R; 20%R] 2 = Some 20%R) by reflexivity.
  assert (H2 : nth_error [1%R; 1%R; 0%R] 2 = Some 0%R) by reflexivity.
  assert (H3 : nth_error [2%R; 2%R; 2%R] 2 = Some 2%R) by reflexivity.
  assert (H4 : (2 <= 0 \/ 0 <= 0)%R) by (right; apply Rle_refl).
  split.
  - split; [exact H1|]. split; [exact H2|]. split; [exact H3|]. split; [exact H4|].
    exact (proj1 (proj1 applier_masking_as_coded [10%R; (-5)%R; 20%R] [1%R; 1%R; 0%R]
                    [2%R; 2%R; 2%R] 1%R) 2%nat 20%R 0%R 2%R H1 H2 H3 H4).
  - eassert (E : Applier.apply_sensfunc_spec (fun _ _ => Some [(4000, 0.3); (6000, 0.2)])
                   [5000; 5500] [10%R; 20%R] [1%R; 0%R] [2%R; 2%R] 1 1%R None true None
                   (Some 0) (Some 0) = Ok _) by reflexivity.
    eexists; split; [exact E|].
    exact (proj1 (proj2 applier_masking_as_coded) _ _ _ _ _ _ _ _ _ _ _ _ _ E).
Defined.

(** C2 counterexample: on the scenario of the claim the flux at the
    second pixel (counts -5, ivar 1, sensitivity 2) is -10, not 0, and
    [apply_sensfunc_spec] leaves 40 at the third pixel (ivar 0). *)
Lemma applier_example_not_zeroed :
  (exists out,
     Applier.apply_sensfunc_spec (fun _ _ => None) [5000; 5001; 5002]
       [10%R; (-5)%R; 20%R] [1%R; 1%R; 0%R] [2%R; 2%R; 2%R] 1 1%R None false None None None
     = Ok out /\ Applier.flam out <> [20%R; 0%R; 0%R] /\
     Applier.outmask out <> [true; false; false] /\ nth 2 (Applier.flam out) 0%R <> 0%R) /\
  Applier.FLAM (Applier.apply_sensfunc_fluxes [10%R; (-5)%R; 20%R] [1%R; 1%R; 0%R]
                  [2%R; 2%R; 2%R] 1%R) <> [20%R; 0%R; 0%R].
Proof.
  split.
  - eexists; split; [exact apply_sensfunc_spec_example|].
    cbn [Applier.flam Applier.outmask nth]. repeat split.
    + intros H; injection H; intros; lra.
    + discriminate.
    + lra.
  - rewrite apply_sensfunc_fluxes_example. intros H; injection H; intros; lra.
Qed.

(** ** generate_sensfunc and generate_sensfunc_old *)

Lemma bind_get_mask_current (wave_star : list Q) (flux_star ivar_star : list R) (W : Q) :
  Sensfunc.bind_get_mask wave_star flux_star ivar_star (Sensfunc.current_kw W) =
  Ok {| Sensfunc.a_wave_star := wave_star; Sensfunc.a_flux_star := flux_star;
        Sensfunc.a_ivar_star := ivar_star; Sensfunc.a_mask_star := true;
        Sensfunc.a_mask_tell := true; Sensfunc.a_BALM_MASK_WID := W;
        Sensfunc.a_trans_thresh := 0.9 |}.
Proof. reflexivity. Qed.

Lemma bind_get_mask_old (wave_star : list Q) (flux_star ivar_star : list R) (W : Q) :
  Sensfunc.bind_get_mask wave_star flux_star ivar_star (Sensfunc.old_kw W) = Err TypeError.
Proof. reflexivity. Qed.

Section Generators.

Variable load_extinction_data : Q -> Q -> option Extinction.table.
Variable trans_final : list Q -> list Q.
Variable get_standard_spectrum : option string -> option Q -> option Q -> option Q ->
  result Sensfunc.std_spectrum.
Variable flux_true_of : Sensfunc.std_spectrum -> list Q -> list R.
Variable standard_sensfunc :
  list Q -> list R -> list R -> list R -> list bool -> list bool -> list bool ->
  nat -> Q -> Q -> bool -> Q -> bool -> list R * list bool.

(** C10: [generate_sensfunc] gives the same result (the same [sens_dict],
    or the same error) for any two values of [trans_thresh], all other
    inputs being equal: its [get_mask] call passes [trans_thresh=0.9]. *)
Theorem generate_sensfunc_ignores_trans_thresh
    (wave : list Q) (counts counts_ivar : list R) (airmass : Q) (exptime : R)
    (longitude latitude : Q) (telluric : bool) (star_type : option string)
    (star_mag ra dec : option Q) (std_file : option string) (poly_norder : nat)
    (BALM_MASK_WID nresln resolution trans_thresh1 trans_thresh2 : Q) (polycorrect : bool) :
  Sensfunc.generate_sensfunc load_extinction_data trans_final get_standard_spectrum
    flux_true_of standard_sensfunc wave counts counts_ivar airmass exptime longitude latitude
    telluric star_type star_mag ra dec std_file poly_norder BALM_MASK_WID nresln resolution
    trans_thresh1 polycorrect =
  Sensfunc.generate_sensfunc load_extinction_data trans_final get_standard_spectrum
    flux_true_of standard_sensfunc wave counts counts_ivar airmass exptime longitude latitude
    telluric star_type star_mag ra dec std_file poly_norder BALM_MASK_WID nresln resolution
    trans_thresh2 polycorrect.
Proof. reflexivity. Qed.

(** C5: once the extinction table is found, the airmass is valid and the
    standard star is resolved, [generate_sensfunc] returns a [sens_dict]
    while [generate_sensfunc_old] raises [TypeError] at its [get_mask]
    call ([mask_balmer] is not a parameter of [get_mask]). *)
Theorem generate_sensfunc_old_type_error
    (wave : list Q) (counts counts_ivar : list R) (airmass : Q) (exptime : R)
    (longitude latitude : Q) (telluric : bool) (star_type : option string)
    (star_mag ra dec : option Q) (std_file : option string) (poly_norder : nat)
    (BALM_MASK_WID nresln resolution trans_thresh : Q) (polycorrect : bool)
    (extinct : Extinction.table) (sd : Sensfunc.std_spectrum) :
  load_extinction_data longitude latitude = Some extinct ->
  1 <= airmass ->
  get_standard_spectrum star_type star_mag ra dec = Ok sd ->
  Sensfunc.generate_sensfunc_old load_extinction_data trans_final get_standard_spectrum
    flux_true_of standard_sensfunc wave counts counts_ivar airmass exptime longitude latitude
    telluric star_type star_mag ra dec std_file poly_norder BALM_MASK_WID nresln resolution
    trans_thresh polycorrect = Err TypeError /\
  exists d,
  Sensfunc.generate_sensfunc load_extinction_data trans_final get_standard_spectrum
    flux_true_of standard_sensfunc wave counts counts_ivar airmass exptime longitude latitude
    telluric star_type star_mag ra dec std_file poly_norder BALM_MASK_WID nresln resolution
    trans_thresh polycorrect = Ok d.
Proof.
  intros Hload Ham Hstd.
  unfold Sensfunc.generate_sensfunc_old, Sensfunc.generate_sensfunc,
    Sensfunc.generate_with_get_mask_kw.
  rewrite Hload; cbn [bind]. rewrite extinction_correction_ok by exact Ham; cbn [bind].
  rewrite Hstd; cbn [bind]. rewrite bind_get_mask_old, bind_get_mask_current; cbn [bind].
  split; [reflexivity|].
  destruct (Sensfunc.get_mask _ _) as [[mb ms] mt].
  destruct (standard_sensfunc _ _ _ _ _ _ _ _ _ _ _ _ _) as [sf msens].
  eexists; reflexivity.
Qed.

End Generators.

Lemma generate_sensfunc_old_type_error_witness :
  let load := fun (_ _ : Q) => Some [(4000, 0.3); (5000, 0.2)] in
  let sd := {| Sensfunc.ss_std_ra := None; Sensfunc.ss_std_dec := None;
               Sensfunc.ss_name := "G191B2B"%string;
               Sensfunc.ss_cal_file := "fg191b2b.dat"%string |} in
  let gss := fun (_ : option string) (_ _ _ : option Q) => Ok sd in
  let tf := fun (w : list Q) => map (fun _ => 1) w in
  let ft := fun (_ : Sensfunc.std_spectrum) (w : list Q) => map (fun _ => 1%R) w in
  let ssf := fun (w : list Q) (f _ _ : list R) (_ _ _ : list bool) (_ : nat) (_ _ : Q)
                 (_ : bool) (_ : Q) (_ : bool) => (f, map (fun _ => true) w) in
  load 0 0 = Some [(4000, 0.3); (5000, 0.2)] /\ 1 <= 1.2 /\
  gss None None (Some 76.6) (Some 52.8) = Ok sd /\
  (Sensfunc.generate_sensfunc_old load tf gss ft ssf [5000; 6000] [10%R; 20%R] [1%R; 1%R]
     1.2 1%R 0 0 false None None (Some 76.6) (Some 52.8) None 4 5 20 3000 0.9 true
   = Err TypeError /\
   exists d,
   Sensfunc.generate_sensfunc load tf gss ft ssf [5000; 6000] [10%R; 20%R] [1%R; 1%R]
     1.2 1%R 0 0 false None None (Some 76.6) (Some 52.8) None 4 5 20 3000 0.9 true = Ok d).
Proof.
  intros load sd gss tf ft ssf.
  assert (H1 : load 0 0 = Some [(4000, 0.3); (5000, 0.2)]) by reflexivity.
  assert (H2 : 1 <= 1.2) by (vm_compute; discriminate).
  assert (H3 : gss None None (Some 76.6) (Some 52.8) = Ok sd) by reflexivity.
  split; [exact H1|]. split; [exact H2|]. split; [exact H3|].
  exact (generate_sensfunc_old_type_error load tf gss ft ssf [5000; 6000] [10%R; 20%R]
           [1%R; 1%R] 1.2 1%R 0 0 false None None (Some 76.6) (Some 52.8) None 4 5 20 3000
           0.9 true _ sd H1 H2 H3).
Defined.

(** ** find_standard_file *)

Lemma Qltb_true (x y : Q) : x < y -> Qltb x y = true.
Proof.
  intros H; unfold Qltb. destruct (Qle_bool y x) eqn:E; [|reflexivity].
  apply Qle_bool_iff in E. exfalso; exact (Qlt_not_le _ _ H E).
Qed.

Lemma Qltb_false (x y : Q) : y <= x -> Qltb x y = false.
Proof. intros H; unfold Qltb. apply Qle_bool_iff in H. rewrite H; reflexivity. Qed.

Section Resolver.

Variable sep : StdFile.star -> Q.

Lemma nearest_fold_spec (rest : list StdFile.star) (best : StdFile.star) :
  let r := fold_left (fun b s => if Qlt_le_dec (sep s) (sep b) then s else b) rest best in
  (r = best \/ In r rest) /\ sep r <= sep best /\ forall x, In x rest -> sep r <= sep x.
Proof.
  revert best; induction rest as [|y rest IH]; intros best; cbv zeta; cbn [fold_left].
  - split; [left; reflexivity|]. split; [apply Qle_refl|]. intros x [].
  - destruct (Qlt_le_dec (sep y) (sep best)) as [Hlt|Hge].
    + destruct (IH y) as [Hin [Hle Hall]].
      split; [destruct Hin as [->|Hin]; right; [left; reflexivity|right; exact Hin]|].
      split; [apply Qle_trans with (sep y); [exact Hle|apply Qlt_le_weak; exact Hlt]|].
      intros x [<-|Hx]; [exact Hle|apply Hall; exact Hx].
    + destruct (IH best) as [Hin [Hle Hall]].
      split; [destruct Hin as [->|Hin]; [left; reflexivity|right; right; exact Hin]|].
      split; [exact Hle|].
      intros x [<-|Hx]; [apply Qle_trans with (sep best); assumption|apply Hall; exact Hx].
Qed.

Lemma nearest_spec (tbl : list StdFile.star) (s : StdFile.star) :
  StdFile.nearest sep tbl = Ok s ->
  In s tbl /\ forall x, In x tbl -> sep s <= sep x.
Proof.
  destruct tbl as [|s0 rest]; cbn [StdFile.nearest]; [discriminate|].
  intros H; injection H as <-.
  destruct (nearest_fold_spec rest s0) as [Hin [Hle Hall]].
  split; [destruct Hin as [->|Hin]; [left; reflexivity|right; exact Hin]|].
  intros x [<-|Hx]; [exact Hle|apply Hall; exact Hx].
Qed.

Lemma nearest_nonempty (tbl : list StdFile.star) :
  tbl <> [] -> exists s, StdFile.nearest sep tbl = Ok s.
Proof. destruct tbl; [contradiction|]. intros _; eexists; reflexivity. Qed.

Lemma search_first_within (pre post : list (StdFile.std_set * string))
    (c : StdFile.std_set) (src : string) (toler : Q) (closest : StdFile.closest_t)
    (s : StdFile.star) :
  Forall (fun cs => exists s', StdFile.nearest sep (StdFile.star_tbl (fst cs)) = Ok s' /\
                               toler <= sep s') pre ->
  StdFile.nearest sep (StdFile.star_tbl c) = Ok s -> sep s < toler ->
  exists cl, StdFile.search sep (pre ++ (c, src) :: post) toler false closest =
    Ok (StdFile.Found {| StdFile.cal_file := StdFile.os_path_join (StdFile.path c) (StdFile.File s);
                         StdFile.name := StdFile.Name s; StdFile.std_source := src;
                         StdFile.std_ra := StdFile.RA_2000 s; StdFile.std_dec := StdFile.DEC_2000 s |},
        cl).
Proof.
  intros Hpre Hc Hlt. revert closest.
  induction Hpre as [|[ss src'] pre' [s' [Hn Hge]] Hpre IH]; intros closest; cbn [app StdFile.search].
  - rewrite Hc; cbn [bind]. destruct (Qlt_le_dec (sep s) toler) as [_|Hge].
    + eexists; reflexivity.
    + exfalso; exact (Qlt_not_le _ _ Hlt Hge).
  - cbn [fst] in Hn. rewrite Hn; cbn [bind].
    destruct (Qlt_le_dec (sep s') toler) as [Hlt'|_]; [exfalso; exact (Qlt_not_le _ _ Hlt' Hge)|].
    apply IH.
Qed.

Lemma search_check (sets : list (StdFile.std_set * string)) (toler : Q)
    (closest : StdFile.closest_t) :
  Forall (fun cs => StdFile.star_tbl (fst cs) <> []) sets ->
  exists cl, StdFile.search sep sets toler true closest =
    Ok (StdFile.Checked
          (existsb (fun cs => match StdFile.nearest sep (StdFile.star_tbl (fst cs)) with
                              | Ok s => Qltb (sep s) toler
                              | Err _ => false
                              end) sets), cl).
Proof.
  intros Hne. revert closest.
  induction Hne as [|[ss src] sets Hc Hne IH]; intros closest; cbn [StdFile.search existsb].
  - eexists; reflexivity.
  - cbn [fst] in Hc |- *. destruct (nearest_nonempty _ Hc) as [s Hs]. rewrite Hs; cbn [bind].
    destruct (Qlt_le_dec (sep s) toler) as [Hlt|Hge].
    + rewrite (Qltb_true _ _ Hlt). eexists; reflexivity.
    + rewrite (Qltb_false _ _ Hge), orb_false_l. apply IH.
Qed.

Lemma search_none (sets : list (StdFile.std_set * string)) (toler : Q)
    (closest : StdFile.closest_t) :
  Forall (fun cs => exists s', StdFile.nearest sep (StdFile.star_tbl (fst cs)) = Ok s' /\
                               toler <= sep s') sets ->
  exists cl, StdFile.search sep sets toler false closest = Ok (StdFile.NotFound, cl) /\
    StdFile.csep cl <= StdFile.csep closest /\
    (forall cs x, In cs sets -> In x (StdFile.star_tbl (fst cs)) -> StdFile.csep cl <= sep x) /\
    (cl = closest \/
     exists cs x, In cs sets /\ In x (StdFile.star_tbl (fst cs)) /\ StdFile.csep cl = sep x /\
                  StdFile.cstar cl = Some (StdFile.Name x, StdFile.RA_2000 x, StdFile.DEC_2000 x)).
Proof.
  intros Hall. revert closest.
  induction Hall as [|[ss src] sets [s [Hs Hge]] Hall IH]; intros closest;
    cbn [StdFile.search].
  - exists closest. split; [reflexivity|]. split; [apply Qle_refl|].
    split; [intros cs x []|left; reflexivity].
  - cbn [fst] in Hs |- *. rewrite Hs; cbn [bind].
    destruct (Qlt_le_dec (sep s) toler) as [Hlt|_]; [exfalso; exact (Qlt_not_le _ _ Hlt Hge)|].
    destruct (nearest_spec _ _ Hs) as [Hin Hmin].
    set (closest' := if Qlt_le_dec (sep s) (StdFile.csep closest) then _ else closest).
    assert (Hc'1 : StdFile.csep closest' <= StdFile.csep closest).
    { unfold closest'; destruct (Qlt_le_dec _ _) as [H|H]; cbn [StdFile.csep];
        [apply Qlt_le_weak; exact H|apply Qle_refl]. }
    assert (Hc'2 : StdFile.csep closest' <= sep s).
    { unfold closest'; destruct (Qlt_le_dec _ _) as [H|H]; cbn [StdFile.csep];
        [apply Qle_refl|exact H]. }
    destruct (IH closest') as [cl [Hcl [Hle [Hmin' Horig]]]].
    exists cl. split; [exact Hcl|]. split; [apply Qle_trans with (StdFile.csep closest'); assumption|].
    split.
    + intros cs x [<-|Hcs] Hx.
      * apply Qle_trans with (StdFile.csep closest'); [exact Hle|].
        apply Qle_trans with (sep s); [exact Hc'2|apply Hmin; exact Hx].
      * apply Hmin' with cs; assumption.
    + destruct Horig as [->|[cs [x [Hcs [Hx [Hsep Hstar]]]]]].
      * unfold closest'; destruct (Qlt_le_dec _ _) as [H|H]; [right|left; reflexivity].
        exists (ss, src), s. cbn [fst StdFile.csep StdFile.cstar].
        split; [left; reflexivity|]. split; [exact Hin|]. split; reflexivity.
      * right. exists cs, x. split; [right; exact Hcs|]. split; [exact Hx|]. split; assumption.
Qed.

End Resolver.

(** C6: the resolver tries xshooter, calspec and eso in this order.  With
    [check=False] it returns the record built from the nearest star of the
    first catalogue whose nearest star is within [toler] (strictly
    closer, as [d2d < toler]); when no catalogue matches it returns
    [None], its [closest] record then holding a star of smallest
    separation over all catalogues; with [check=True] it returns whether
    some catalogue matches. *)
Theorem find_standard_file_priority (sep : StdFile.star -> Q)
    (xshooter calspec eso : StdFile.std_set) (toler : Q) :
  StdFile.star_tbl xshooter <> [] -> StdFile.star_tbl calspec <> [] ->
  StdFile.star_tbl eso <> [] ->
  (forall x, sep x <= 180 * 60) ->
  (forall pre c src post s,
     [(xshooter, "xshooter"%string); (calspec, "calspec"%string); (eso, "eso"%string)] =
       pre ++ (c, src) :: post ->
     Forall (fun cs => exists s', StdFile.nearest sep (StdFile.star_tbl (fst cs)) = Ok s' /\
                                  toler <= sep s') pre ->
     StdFile.nearest sep (StdFile.star_tbl c) = Ok s -> sep s < toler ->
     StdFile.find_standard_file sep xshooter calspec eso toler false =
     Ok (StdFile.Found {| StdFile.cal_file := StdFile.os_path_join (StdFile.path c) (StdFile.File s);
                          StdFile.name := StdFile.Name s; StdFile.std_source := src;
                          StdFile.std_ra := StdFile.RA_2000 s;
                          StdFile.std_dec := StdFile.DEC_2000 s |})) /\
  ((forall c s, In c [xshooter; calspec; eso] ->
                StdFile.nearest sep (StdFile.star_tbl c) = Ok s -> toler <= sep s) ->
   StdFile.find_standard_file sep xshooter calspec eso toler false = Ok StdFile.NotFound /\
   exists cl,
     StdFile.find_standard_file_trace sep xshooter calspec eso toler false =
       Ok (StdFile.NotFound, cl) /\
     (exists c x, In c [xshooter; calspec; eso] /\ In x (StdFile.star_tbl c) /\
                  StdFile.csep cl = sep x /\
                  StdFile.cstar cl = Some (StdFile.Name x, StdFile.RA_2000 x, StdFile.DEC_2000 x)) /\
     (forall c x, In c [xshooter; calspec; eso] -> In x (StdFile.star_tbl c) ->
                  StdFile.csep cl <= sep x)) /\
  StdFile.find_standard_file sep xshooter calspec eso toler true =
  Ok (StdFile.Checked
        (existsb (fun c => match StdFile.nearest sep (StdFile.star_tbl c) with
                           | Ok s => Qltb (sep s) toler
                           | Err _ => false
                           end) [xshooter; calspec; eso])).
Proof.
  intros Hx Hc He Hsep.
  split; [|split].
  - intros pre c src post s Heq Hpre Hs Hlt.
    unfold StdFile.find_standard_file, StdFile.find_standard_file_trace. rewrite Heq.
    destruct (search_first_within sep pre post c src toler StdFile.closest0 s Hpre Hs Hlt)
      as [cl Hcl].
    rewrite Hcl; reflexivity.
  - intros Hmiss.
    assert (Hall : Forall (fun cs => exists s', StdFile.nearest sep (StdFile.star_tbl (fst cs)) = Ok s' /\
                                      toler <= sep s')
                     [(xshooter, "xshooter"%string); (calspec, "calspec"%string); (eso, "eso"%string)]).
    { repeat constructor; cbn [fst].
      - destruct (nearest_nonempty sep _ Hx) as [s Hs]. exists s; split; [exact Hs|].
        apply (Hmiss xshooter); [left; reflexivity|exact Hs].
      - destruct (nearest_nonempty sep _ Hc) as [s Hs]. exists s; split; [exact Hs|].
        apply (Hmiss calspec); [right; left; reflexivity|exact Hs].
      - destruct (nearest_nonempty sep _ He) as [s Hs]. exists s; split; [exact Hs|].
        apply (Hmiss eso); [right; right; left; reflexivity|exact Hs]. }
    destruct (search_none sep _ toler StdFile.closest0 Hall) as [cl [Hcl [_ [Hmin Horig]]]].
    unfold StdFile.find_standard_file, StdFile.find_standard_file_trace. rewrite Hcl.
    cbn [bind fst]. split; [reflexivity|]. exists cl. split; [reflexivity|].
    assert (Hin : forall c, In c [xshooter; calspec; eso] <->
                       exists src, In (c, src) [(xshooter, "xshooter"%string);
                                                (calspec, "calspec"%string); (eso, "eso"%string)]).
    { intros c; cbn [In]; split.
      - intros [<-|[<-|[<-|[]]]]; eexists; [left|right; left|right; right; left]; reflexivity.
      - intros [src [H|[H|[H|[]]]]]; injection H as <- _; auto. }
    split.
    + destruct Horig as [->|[[c src] [x [Hcs [Hxin [Hsep' Hstar]]]]]].
      * exfalso. destruct (StdFile.star_tbl xshooter) as [|x0 t] eqn:E; [contradiction|].
        assert (H0 : StdFile.csep StdFile.closest0 <= sep x0).
        { apply (Hmin (xshooter, "xshooter"%string)); [left; reflexivity|cbn [fst]; rewrite E; left; reflexivity]. }
        pose proof (Hsep x0) as H1.
        assert (H2 : StdFile.csep StdFile.closest0 <= 180 * 60) by (eapply Qle_trans; eassumption).
        vm_compute in H2. apply H2; reflexivity.
      * exists c, x. split; [apply Hin; exists src; exact Hcs|]. cbn [fst] in Hxin. auto.
    + intros c x Hc' Hxc. destruct (proj1 (Hin c) Hc') as [src Hcs].
      apply (Hmin (c, src)); assumption.
  - unfold StdFile.find_standard_file, StdFile.find_standard_file_trace.
    assert (Hne : Forall (fun cs => StdFile.star_tbl (fst cs) <> [])
                    [(xshooter, "xshooter"%string); (calspec, "calspec"%string); (eso, "eso"%string)])
      by (repeat constructor; assumption).
    destruct (search_check sep _ toler StdFile.closest0 Hne) as [cl Hcl].
    rewrite Hcl. reflexivity.
Qed.

Lemma find_standard_file_priority_witness :
  let mk := fun n f => {| StdFile.Name := n; StdFile.RA_2000 := "05:06:36.6"%string;
                          StdFile.DEC_2000 := "52:52:01.0"%string; StdFile.File := f |} in
  let sep := fun x : StdFile.star => if String.eqb (StdFile.Name x) "G191B2B" then 3 else 300 in
  let xs := {| StdFile.path := "data/standards/xshooter/"%string;
               StdFile.star_tbl := [mk "LTT3218"%string "fLTT3218.dat"%string] |} in
  let cs := {| StdFile.path := "data/standards/calspec/"%string;
               StdFile.star_tbl := [mk "G191B2B"%string "g191b2b_mod_005.fits"%string] |} in
  let es := {| StdFile.path := "data/standards/ESOFIL/"%string;
               StdFile.star_tbl := [mk "FEIGE110"%string "ffeige110.dat"%string] |} in
  let toler := StdFile.default_toler in
  StdFile.star_tbl xs <> [] /\ StdFile.star_tbl cs <> [] /\ StdFile.star_tbl es <> [] /\
  (forall x, sep x <= 180 * 60) /\
  (forall pre c src post s,
     [(xs, "xshooter"%string); (cs, "calspec"%string); (es, "eso"%string)] =
       pre ++ (c, src) :: post ->
     Forall (fun cs => exists s', StdFile.nearest sep (StdFile.star_tbl (fst cs)) = Ok s' /\
                                  toler <= sep s') pre ->
     StdFile.nearest sep (StdFile.star_tbl c) = Ok s -> sep s < toler ->
     StdFile.find_standard_file sep xs cs es toler false =
     Ok (StdFile.Found {| StdFile.cal_file := StdFile.os_path_join (StdFile.path c) (StdFile.File s);
                          StdFile.name := StdFile.Name s; StdFile.std_source := src;
                          StdFile.std_ra := StdFile.RA_2000 s;
                          StdFile.std_dec := StdFile.DEC_2000 s |})) /\
  ((forall c s, In c [xs; cs; es] ->
                StdFile.nearest sep (StdFile.star_tbl c) = Ok s -> toler <= sep s) ->
   StdFile.find_standard_file sep xs cs es toler false = Ok StdFile.NotFound /\
   exists cl,
     StdFile.find_standard_file_trace sep xs cs es toler false =
       Ok (StdFile.NotFound, cl) /\
     (exists c x, In c [xs; cs; es] /\ In x (StdFile.star_tbl c) /\
                  StdFile.csep cl = sep x /\
                  StdFile.cstar cl = Some (StdFile.Name x, StdFile.RA_2000 x, StdFile.DEC_2000 x)) /\
     (forall c x, In c [xs; cs; es] -> In x (StdFile.star_tbl c) ->
                  StdFile.csep cl <= sep x)) /\
  StdFile.find_standard_file sep xs cs es toler true =
  Ok (StdFile.Checked
        (existsb (fun c => match StdFile.nearest sep (StdFile.star_tbl c) with
                           | Ok s => Qltb (sep s) toler
                           | Err _ => false
                           end) [xs; cs; es])).
Proof.
  intros mk sep xs cs es toler.
  assert (H1 : StdFile.star_tbl xs <> []) by discriminate.
  assert (H2 : StdFile.star_tbl cs <> []) by discriminate.
  assert (H3 : StdFile.star_tbl es <> []) by discriminate.
  assert (H4 : forall x, sep x <= 180 * 60)
    by (intros x; unfold sep; destruct (String.eqb _ _); vm_compute; discriminate).
  split; [exact H1|]. split; [exact H2|]. split; [exact H3|]. split; [exact H4|].
  exact (find_standard_file_priority sep xs cs es toler H1 H2 H3 H4).
Defined.

(** The resolver on three one-star catalogues where only the calspec star
    is within 20 arcmin: the calspec record is returned; with [check] the
    answer is [true]. *)
Example find_standard_file_calspec_example :
  let mk := fun n f => {| StdFile.Name := n; StdFile.RA_2000 := "05:06:36.6"%string;
                          StdFile.DEC_2000 := "52:52:01.0"%string; StdFile.File := f |} in
  let sep := fun x : StdFile.star => if String.eqb (StdFile.Name x) "G191B2B" then 3 else 300 in
  let xs := {| StdFile.path := "data/standards/xshooter/"%string;
               StdFile.star_tbl := [mk "LTT3218"%string "fLTT3218.dat"%string] |} in
  let cs := {| StdFile.path := "data/standards/calspec/"%string;
               StdFile.star_tbl := [mk "G191B2B"%string "g191b2b_mod_005.fits"%string] |} in
  let es := {| StdFile.path := "data/standards/ESOFIL/"%string;
               StdFile.star_tbl := [mk "FEIGE110"%string "ffeige110.dat"%string] |} in
  StdFile.find_standard_file sep xs cs es StdFile.default_toler false =
    Ok (StdFile.Found {| StdFile.cal_file := "data/standards/calspec/g191b2b_mod_005.fits"%string;
                         StdFile.name := "G191B2B"%string; StdFile.std_source := "calspec"%string;
                         StdFile.std_ra := "05:06:36.6"%string;
                         StdFile.std_dec := "52:52:01.0"%string |}) /\
  StdFile.find_standard_file sep xs cs es StdFile.default_toler true = Ok (StdFile.Checked true).
Proof. split; reflexivity. Qed.

(** * Further properties of the fluxing routines *)

(** ** get_mask *)

Open Scope Q_scope.

Lemma nth_error_combine_inv {A B} (l1 : list A) (l2 : list B) i a b :
  nth_error (combine l1 l2) i = Some (a, b) ->
  nth_error l1 i = Some a /\ nth_error l2 i = Some b.
Proof.
  revert l2 i; induction l1 as [|x l1 IH]; intros [|y l2] [|i] H; simpl in *;
    try discriminate; try (injection H; intros; subst; auto); auto.
Qed.

Lemma nth_error_seq_inv s n i k :
  nth_error (seq s n) i = Some k -> k = (s + i)%nat /\ (i < n)%nat.
Proof.
  revert s i; induction n as [|n IH]; intros s [|i] H; simpl in *; try discriminate.
  - injection H; intros; subst; lia.
  - destruct (IH _ _ H); subst; lia.
Qed.

(** get_mask: a pixel kept by [msk_bad] is an interior pixel (neither the
    first nor the last), lies above the 3000 A atmospheric cutoff, and has
    positive flux and positive inverse variance. *)
Theorem get_mask_bad_interior (trans_final : list Q -> list Q)
    (a : Sensfunc.get_mask_args) (i : nat) :
  nth_error (fst (fst (Sensfunc.get_mask trans_final a))) i = Some true ->
  (0 < i < length (Sensfunc.a_wave_star a) - 1)%nat /\
  3000.0 < nth i (Sensfunc.a_wave_star a) 0 /\
  (0 < nth i (Sensfunc.a_flux_star a) 0)%R /\
  (0 < nth i (Sensfunc.a_ivar_star a) 0)%R.
Proof.
  unfold Sensfunc.get_mask; cbn zeta; cbn [fst].
  rewrite nth_error_map.
  destruct (nth_error (combine _ _) i) as [[k [w [f v]]]|] eqn:E; [|discriminate].
  cbn [option_map]; intros H; injection H; clear H; intros H.
  apply nth_error_combine_inv in E as [Es E].
  apply nth_error_combine_inv in E as [Ew E].
  apply nth_error_combine_inv in E as [Ef Ev].
  apply nth_error_seq_inv in Es as [-> Hi]; simpl Nat.add in *.
  apply andb_prop in H as [H H5]. apply andb_prop in H as [H H4].
  apply andb_prop in H as [H H3]. apply andb_prop in H as [H1 H2].
  apply negb_true_iff in H1, H2, H3, H4, H5.
  rewrite (nth_error_nth _ _ _ Ew), (nth_error_nth _ _ _ Ef), (nth_error_nth _ _ _ Ev).
  unfold Applier.Rleb in H1, H2.
  destruct (Rle_dec v 0) as [|Hv]; [discriminate|].
  destruct (Rle_dec f 0) as [|Hf]; [discriminate|].
  apply Nat.eqb_neq in H3, H4.
  repeat split; try lia.
  - apply Qnot_le_lt; intros Hw; apply Qle_bool_iff in Hw; congruence.
  - lra.
  - lra.
Qed.

Lemma map2_keeps_false {B} (f : bool -> B -> bool) (m : list bool) (l : list B) i :
  (forall x, f false x = false) -> nth_error m i = Some false ->
  nth_error (Np.map2 f m l) i <> Some true.
Proof.
  intros Hf; revert l i; induction m as [|b m IH]; intros [|x l] [|i] Hi; simpl in *;
    try discriminate; try (intro; discriminate).
  - injection Hi; intros ->; rewrite Hf; discriminate.
  - apply IH; exact Hi.
Qed.

(** get_mask: with [mask_tell], a pixel in one of the five optical telluric
    bands (6270-6290, 6850-6960, 7580-7750, 7160-7340, 8150-8250 A) is
    never kept by [msk_tell], whatever the NIR transmission. *)
Theorem get_mask_tell_optical_bands (trans_final : list Q -> list Q)
    (a : Sensfunc.get_mask_args) (i : nat) (w : Q) :
  Sensfunc.a_mask_tell a = true ->
  nth_error (Sensfunc.a_wave_star a) i = Some w ->
  (6270.00 <= w <= 6290.00 \/ 6850.00 <= w <= 6960.00 \/ 7580.00 <= w <= 7750.00 \/
   7160.00 <= w <= 7340.00 \/ 8150.00 <= w <= 8250.00) ->
  nth_error (snd (Sensfunc.get_mask trans_final a)) i <> Some true.
Proof.
  intros Hm Hw Hband.
  assert (Hopt : (Sensfunc.in_band 6270.00 6290.00 w || Sensfunc.in_band 6850.00 6960.00 w
                  || Sensfunc.in_band 7580.00 7750.00 w || Sensfunc.in_band 7160.00 7340.00 w
                  || Sensfunc.in_band 8150.00 8250.00 w) = true).
  { unfold Sensfunc.in_band.
    destruct Hband as [[H1 H2]|[[H1 H2]|[[H1 H2]|[[H1 H2]|[H1 H2]]]]];
      apply Qle_bool_iff in H1, H2;
      repeat (rewrite ?H1, ?H2, ?orb_true_r, ?orb_true_l; try reflexivity). }
  unfold Sensfunc.get_mask; cbn zeta; cbn [snd]; rewrite Hm.
  assert (Hm0 : forall g : Q -> bool, g w = true ->
            nth_error (map (fun w0 => negb (g w0)) (Sensfunc.a_wave_star a)) i = Some false).
  { intros g Hg; rewrite nth_error_map, Hw; cbn [option_map]; rewrite Hg; reflexivity. }
  destruct (Qlt_le_dec _ _).
  - apply map2_keeps_false; [intros [? ?]; reflexivity|]. apply Hm0; exact Hopt.
  - rewrite (Hm0 _ Hopt); discriminate.
Qed.

(** get_mask: when the reddest pixel is at most 9100 A, the three masks
    depend neither on the NIR sky transmission nor on [trans_thresh]. *)
Theorem get_mask_blue_ignores_transmission (tf1 tf2 : list Q -> list Q)
    (a : Sensfunc.get_mask_args) (thr : Q) :
  Sensfunc.qmax (Sensfunc.a_wave_star a) <= 9100.0 ->
  Sensfunc.get_mask tf1 a = Sensfunc.get_mask tf2 (Sensfunc.with_trans_thresh a thr).
Proof.
  intros Hmax; unfold Sensfunc.get_mask; cbn zeta; cbn [Sensfunc.with_trans_thresh
    Sensfunc.a_wave_star Sensfunc.a_flux_star Sensfunc.a_ivar_star Sensfunc.a_mask_star
    Sensfunc.a_mask_tell Sensfunc.a_BALM_MASK_WID Sensfunc.a_trans_thresh].
  destruct (Sensfunc.a_mask_tell a); [|reflexivity].
  destruct (Qlt_le_dec 9100.0 _) as [Hlt|]; [|reflexivity].
  exfalso; apply (Qlt_not_le _ _ Hlt); exact Hmax.
Qed.

(** ** extinction_correction: wavelengths outside the table *)

Open Scope Q_scope.

Lemma set_range_length lo hi v mag :
  length (Extinction.set_range lo hi v mag) = length mag.
Proof.
  unfold Extinction.set_range; rewrite length_map, length_combine, length_seq; lia.
Qed.

Lemma set_range_nth_aux lo hi v (mag : list Q) s i :
  (i < length mag)%nat ->
  nth i (map (fun '(i, m) => if (lo <=? i)%nat && (i <? hi)%nat then v else m)
           (combine (seq s (length mag)) mag)) 0 =
  if (lo <=? s + i)%nat && (s + i <? hi)%nat then v else nth i mag 0.
Proof.
  revert s i; induction mag as [|m mag IH]; intros s [|i] Hi; simpl in *; try lia.
  - rewrite Nat.add_0_r; reflexivity.
  - rewrite IH by lia. replace (S s + i)%nat with (s + S i)%nat by lia. reflexivity.
Qed.

Lemma set_range_nth lo hi v mag i :
  (i < length mag)%nat ->
  nth i (Extinction.set_range lo hi v mag) 0 =
  if (lo <=? i)%nat && (i <? hi)%nat then v else nth i mag 0.
Proof. intros Hi; exact (set_range_nth_aux lo hi v mag 0 i Hi). Qed.

Lemma filter_seq_ge (p : nat -> bool) s n x :
  In x (filter p (seq s n)) -> (s <= x)%nat.
Proof. rewrite filter_In, in_seq; lia. Qed.

Lemma filter_seq_head (p : nat -> bool) s n g r :
  filter p (seq s n) = g :: r -> forall x, In x (filter p (seq s n)) -> (g <= x)%nat.
Proof.
  revert s; induction n as [|n IH]; intros s H x Hx; [discriminate|].
  cbn [seq filter] in H, Hx. destruct (p s).
  - injection H; intros _ <-. destruct Hx as [<-|Hx]; [lia|].
    apply filter_seq_ge in Hx; lia.
  - exact (IH _ H x Hx).
Qed.

Lemma last_In_nonempty {A} (l : list A) d : l <> [] -> In (last l d) l.
Proof.
  induction l as [|a [|b l] IH]; intros H; [congruence|left; reflexivity|].
  right; apply IH; discriminate.
Qed.

Lemma filter_seq_last (p : nat -> bool) s n d x :
  In x (filter p (seq s n)) -> (x <= last (filter p (seq s n)) d)%nat.
Proof.
  revert s; induction n as [|n IH]; intros s Hx; [destruct Hx|].
  cbn [seq filter] in *. destruct (p s).
  - destruct (filter p (seq (S s) n)) as [|y F] eqn:EF.
    + destruct Hx as [<-|[]]; simpl; lia.
    + change (last (s :: y :: F) d) with (last (y :: F) d).
      rewrite <- EF in *.
      destruct Hx as [<-|Hx].
      * assert (Hin : In (last (filter p (seq (S s) n)) d) (filter p (seq (S s) n)))
          by (apply last_In_nonempty; rewrite EF; discriminate).
        apply filter_seq_ge in Hin; lia.
      * apply IH; exact Hx.
  - apply IH; exact Hx.
Qed.

Lemma Qle_bool_false_lt x y : Qle_bool x y = false -> y < x.
Proof.
  intros H; apply Qnot_le_lt; intros H'; apply Qle_bool_iff in H'; congruence.
Qed.

(** extinction_correction: the fix-up of wavelengths outside the table keeps
    the length of [mag_ext] and never changes a pixel whose interpolated
    extinction is positive. *)
Theorem deal_with_outside_keeps_positive (mag_ext : list Q) :
  length (Extinction.deal_with_outside mag_ext) = length mag_ext /\
  forall i, 0 < nth i mag_ext 0 ->
  nth i (Extinction.deal_with_outside mag_ext) 0 = nth i mag_ext 0.
Proof.
  unfold Extinction.deal_with_outside; cbn zeta.
  set (p := fun i => negb (Qle_bool (nth i mag_ext 0) 0)).
  assert (Hin : forall i, 0 < nth i mag_ext 0 -> (i < length mag_ext)%nat ->
                In i (filter p (seq 0 (length mag_ext)))).
  { intros i Hpos Hi; apply filter_In; split; [apply in_seq; lia|].
    unfold p; apply negb_true_iff.
    destruct (Qle_bool _ 0) eqn:E; [|reflexivity].
    apply Qle_bool_iff in E; exfalso; apply (Qlt_not_le _ _ Hpos E). }
  assert (Hrange : forall i, 0 < nth i mag_ext 0 -> (i < length mag_ext)%nat).
  { intros i Hpos; destruct (Nat.lt_ge_cases i (length mag_ext)) as [|Hge]; [assumption|].
    rewrite nth_overflow in Hpos by exact Hge; discriminate. }
  destruct (filter p (seq 0 (length mag_ext))) as [|g0 r] eqn:Eg.
  - split; [reflexivity|]; intros; reflexivity.
  - destruct (negb (g0 =? 0)%nat).
    + split; [apply set_range_length|].
      intros i Hpos. rewrite set_range_nth by (apply Hrange; exact Hpos).
      assert (g0 <= i)%nat.
      { apply (filter_seq_head p 0 (length mag_ext) g0 r Eg). rewrite Eg; apply Hin; auto. }
      destruct (i <? g0)%nat eqn:E; [apply Nat.ltb_lt in E; lia|].
      rewrite andb_false_r; reflexivity.
    + destruct (negb (last (g0 :: r) g0 =? length mag_ext - 1)%nat); [|split; [reflexivity|]; intros; reflexivity].
      split; [apply set_range_length|].
      intros i Hpos. rewrite set_range_nth by (apply Hrange; exact Hpos).
      assert (i <= last (g0 :: r) g0)%nat.
      { rewrite <- Eg. apply filter_seq_last. rewrite Eg; apply Hin; auto. }
      destruct (S (last (g0 :: r) g0) <=? i)%nat eqn:E; [apply Nat.leb_le in E; lia|].
      reflexivity.
Qed.

Lemma filter_seq_split (p : nat -> bool) g n :
  (g <= n)%nat -> filter p (seq 0 n) = filter p (seq 0 g) ++ filter p (seq g (n - g)).
Proof.
  intros H; rewrite <- filter_app, <- seq_app; f_equal; f_equal; lia.
Qed.

Lemma filter_all_false (p : nat -> bool) s n :
  (forall j, (s <= j < s + n)%nat -> p j = false) -> filter p (seq s n) = [].
Proof.
  revert s; induction n as [|n IH]; intros s H; [reflexivity|].
  cbn [seq filter]. rewrite H by lia. apply IH; intros j Hj; apply H; lia.
Qed.

(** extinction_correction: when the first positive extinction is at
    pixel [g0 > 0], every pixel below it takes the value at [g0]. *)
Theorem deal_with_outside_low_hold (mag_ext : list Q) (g0 : nat) :
  (0 < g0 < length mag_ext)%nat ->
  0 < nth g0 mag_ext 0 ->
  (forall j, (j < g0)%nat -> nth j mag_ext 0 <= 0) ->
  forall i, (i < g0)%nat -> nth i (Extinction.deal_with_outside mag_ext) 0 = nth g0 mag_ext 0.
Proof.
  intros [Hg Hn] Hpos Hneg i Hi.
  unfold Extinction.deal_with_outside; cbn zeta.
  set (p := fun i => negb (Qle_bool (nth i mag_ext 0) 0)).
  assert (Hp : p g0 = true).
  { unfold p; apply negb_true_iff.
    destruct (Qle_bool _ 0) eqn:E; [|reflexivity].
    apply Qle_bool_iff in E; exfalso; apply (Qlt_not_le _ _ Hpos E). }
  rewrite (filter_seq_split p g0) by lia.
  rewrite filter_all_false by (intros j Hj; unfold p; apply negb_false_iff, Qle_bool_iff, Hneg; lia).
  destruct (length mag_ext - g0)%nat as [|k] eqn:Ek; [lia|].
  cbn [app seq filter]. rewrite Hp.
  assert (Hg0 : negb (g0 =? 0)%nat = true) by (apply negb_true_iff, Nat.eqb_neq; lia).
  rewrite Hg0.
  rewrite set_range_nth by lia.
  replace ((0 <=? i)%nat && (i <? g0)%nat) with true
    by (symmetry; apply andb_true_intro; split; [apply Nat.leb_le|apply Nat.ltb_lt]; lia).
  reflexivity.
Qed.

(** extinction_correction: when the first pixel has positive extinction
    and the last positive one is at [gl] before the end, every pixel
    after [gl] takes the value at [gl]. *)
Theorem deal_with_outside_high_hold (mag_ext : list Q) (gl : nat) :
  0 < nth 0 mag_ext 0 ->
  (gl < length mag_ext - 1)%nat ->
  0 < nth gl mag_ext 0 ->
  (forall j, (gl < j)%nat -> nth j mag_ext 0 <= 0) ->
  forall i, (gl < i < length mag_ext)%nat ->
  nth i (Extinction.deal_with_outside mag_ext) 0 = nth gl mag_ext 0.
Proof.
  intros H0 Hgl Hpos Hneg i Hi.
  unfold Extinction.deal_with_outside; cbn zeta.
  set (p := fun i => negb (Qle_bool (nth i mag_ext 0) 0)).
  assert (Hpos_p : forall j, 0 < nth j mag_ext 0 -> p j = true).
  { intros j Hj; unfold p; apply negb_true_iff.
    destruct (Qle_bool _ 0) eqn:E; [|reflexivity].
    apply Qle_bool_iff in E; exfalso; apply (Qlt_not_le _ _ Hj E). }
  assert (Ef : filter p (seq 0 (length mag_ext)) = filter p (seq 0 gl) ++ [gl]).
  { rewrite (filter_seq_split p (S gl)) by lia.
    rewrite (filter_all_false p (S gl))
      by (intros j Hj; unfold p; apply negb_false_iff, Qle_bool_iff, Hneg; lia).
    rewrite app_nil_r, seq_S, filter_app. cbn [filter].
    replace (p (0 + gl)%nat) with true by (symmetry; apply Hpos_p; exact Hpos).
    reflexivity. }
  rewrite Ef.
  destruct gl as [|gl'].
  - cbn [seq filter app].
    simpl (negb (0 =? 0)%nat).
    cbn [last].
    destruct (negb (0 =? length mag_ext - 1)%nat) eqn:E;
      [|apply negb_false_iff, Nat.eqb_eq in E; lia].
    rewrite set_range_nth by lia.
    replace ((1 <=? i)%nat && (i <? length mag_ext)%nat) with true
      by (symmetry; apply andb_true_intro; split; [apply Nat.leb_le|apply Nat.ltb_lt]; lia).
    reflexivity.
  - cbn [seq filter]. rewrite (Hpos_p 0%nat H0). cbn [app].
    simpl (negb (0 =? 0)%nat). cbv iota.
    rewrite app_comm_cons, last_last.
    destruct (negb (S gl' =? length mag_ext - 1)%nat) eqn:E;
      [|apply negb_false_iff, Nat.eqb_eq in E; lia].
    rewrite set_range_nth by lia.
    replace ((S (S gl') <=? i)%nat && (i <? length mag_ext)%nat) with true
      by (symmetry; apply andb_true_intro; split; [apply Nat.leb_le|apply Nat.ltb_lt]; lia).
    reflexivity.
Qed.

(** ** extinction_correction: the correction factors *)

Open Scope Q_scope.

(* ---------- extinction lower bound ---------- *)

Lemma Q2R_nonneg (q : Q) : 0 <= q -> (0 <= Q2R q)%R.
Proof.
  intros H. apply Qle_Rle in H. unfold Q2R at 1 in H. simpl in H. lra.
Qed.

Lemma interp_seg_nonneg (pts : Extinction.table) (w : Q) :
  Sorted (fun p q => fst p < fst q) pts ->
  Forall (fun p => 0 <= snd p) pts ->
  (match pts with [] => True | (x0, _) :: _ => x0 <= w end) ->
  0 <= Extinction.interp_seg pts w.
Proof.
  induction pts as [|[x0 y0] pts IH]; intros Hs Hy Hw; [apply Qle_refl|].
  destruct pts as [|[x1 y1] rest]; [apply Qle_refl|].
  apply Sorted_inv in Hs as [Hs Hhd]. apply HdRel_inv in Hhd; cbn [fst] in Hhd.
  inversion Hy as [|? ? Hy0 Hy']; subst. inversion Hy' as [|? ? Hy1 _]; subst.
  cbn [snd] in Hy0, Hy1.
  cbn [Extinction.interp_seg]. destruct (Qle_bool w x1) eqn:E.
  - apply Qle_bool_iff in E.
    apply Rle_Qle. rewrite Q2R_plus, Q2R_mult, Q2R_div, !Q2R_minus
      by (intros Hd; apply (Qlt_not_le x0 x1 Hhd); apply Qle_lteq; right;
          apply (Qplus_inj_r _ _ (-x0)); rewrite Hd; ring).
    apply Qlt_Rlt in Hhd. apply Qle_Rle in E. apply Qle_Rle in Hw.
    apply Q2R_nonneg in Hy0. apply Q2R_nonneg in Hy1.
    unfold Q2R at 1; simpl Qnum; simpl Qden.
    set (d := (Q2R x1 - Q2R x0)%R). set (a := (Q2R w - Q2R x0)%R).
    assert (Hd : (0 < d)%R) by (unfold d; lra).
    assert (Ht0 : (0 <= a / d)%R) by (unfold Rdiv; apply Rmult_le_pos; [unfold a; lra|left; apply Rinv_0_lt_compat; lra]).
    assert (Ht1 : (a / d <= 1)%R).
    { apply (Rmult_le_reg_r d); [exact Hd|]. unfold Rdiv; rewrite Rmult_assoc, Rinv_l by lra.
      unfold a, d; lra. }
    replace ((Q2R y1 - Q2R y0) / d * a)%R with ((Q2R y1 - Q2R y0) * (a / d))%R
      by (unfold Rdiv; ring).
    nra.
  - apply IH; auto.
    apply Qlt_le_weak, Qnot_le_lt; intros H; apply Qle_bool_iff in H; congruence.
Qed.

Lemma interp1d_fill0_nonneg (pts : Extinction.table) (w : Q) :
  Sorted (fun p q => fst p < fst q) pts ->
  Forall (fun p => 0 <= snd p) pts ->
  0 <= Extinction.interp1d_fill0 pts w.
Proof.
  intros Hs Hy; unfold Extinction.interp1d_fill0.
  destruct pts as [|[x0 y0] rest]; [apply Qle_refl|].
  destruct (Qlt_le_dec w x0); [apply Qle_refl|].
  destruct (Qlt_le_dec _ w); [apply Qle_refl|].
  apply interp_seg_nonneg; assumption.
Qed.

Lemma nth_Forall_default {A} (P : A -> Prop) (l : list A) (d : A) i :
  Forall P l -> P d -> P (nth i l d).
Proof.
  intros Hl Hd; destruct (Nat.lt_ge_cases i (length l)).
  - rewrite Forall_forall in Hl; apply Hl, nth_In; assumption.
  - rewrite nth_overflow by assumption; exact Hd.
Qed.

Lemma set_range_Forall (P : Q -> Prop) lo hi v mag :
  Forall P mag -> P v -> Forall P (Extinction.set_range lo hi v mag).
Proof.
  intros Hm Hv; unfold Extinction.set_range.
  apply Forall_forall; intros x Hx.
  apply in_map_iff in Hx as [[i m] [<- Hin]].
  destruct (_ && _); [exact Hv|].
  apply in_combine_r in Hin. rewrite Forall_forall in Hm; apply Hm; exact Hin.
Qed.

Lemma deal_with_outside_Forall (P : Q -> Prop) (mag_ext : list Q) :
  Forall P mag_ext -> P 0 -> Forall P (Extinction.deal_with_outside mag_ext).
Proof.
  intros Hm H0; unfold Extinction.deal_with_outside; cbn zeta.
  destruct (filter _ _) as [|g0 r]; [exact Hm|].
  destruct (negb _).
  - apply set_range_Forall; [exact Hm|apply nth_Forall_default; assumption].
  - destruct (negb _); [|exact Hm].
    apply set_range_Forall; [exact Hm|apply nth_Forall_default; assumption].
Qed.

Lemma deal_with_outside_length (mag_ext : list Q) :
  length (Extinction.deal_with_outside mag_ext) = length mag_ext.
Proof.
  unfold Extinction.deal_with_outside; cbn zeta.
  assert (Hs : forall lo hi v, length (Extinction.set_range lo hi v mag_ext) = length mag_ext)
    by (intros; unfold Extinction.set_range;
        rewrite length_map, length_combine, length_seq; lia).
  destruct (filter _ _) as [|g0 r]; [reflexivity|].
  destruct (negb _); [apply Hs|]. destruct (negb _); [apply Hs|reflexivity].
Qed.

(** extinction_correction: for an airmass of at least 1 and a table sorted
    by wavelength with non-negative extinctions, the correction succeeds,
    has one factor per pixel, and every factor is at least 1. *)
Theorem extinction_correction_at_least_one (wave : list Q) (airmass : Q)
    (extinct : Extinction.table) :
  1 <= airmass ->
  Sorted (fun p q => fst p < fst q) extinct ->
  Forall (fun p => 0 <= snd p) extinct ->
  exists corr, Extinction.extinction_correction wave airmass extinct = Ok corr /\
    length corr = length wave /\ Forall (fun c => 1 <= c)%R corr.
Proof.
  intros Ham Hs Hy. rewrite extinction_correction_ok by exact Ham.
  eexists; split; [reflexivity|]. split.
  - unfold Extinction.mag_ext_of. rewrite length_map, deal_with_outside_length, length_map.
    reflexivity.
  - apply Forall_map.
    assert (Hm : Forall (fun m => 0 <= m) (Extinction.mag_ext_of wave extinct)).
    { unfold Extinction.mag_ext_of. apply deal_with_outside_Forall; [|apply Qle_refl].
      apply Forall_map, Forall_forall; intros w _. apply interp1d_fill0_nonneg; assumption. }
    eapply Forall_impl; [|exact Hm]. intros m Hm0. cbv beta.
    unfold Extinction.corr. rewrite <- (Rpower_O 10) at 1 by lra.
    apply Rle_Rpower; [lra|]. apply Q2R_nonneg.
    apply Qmult_le_0_compat; [apply Qmult_le_0_compat; [vm_compute; discriminate|exact Hm0]|].
    apply (Qle_trans _ 1); [vm_compute; discriminate|exact Ham].
Qed.

Lemma extinction_correction_at_least_one_witness :
  1 <= 1.5 /\ Sorted (fun p q => fst p < fst q) [(4000, 0.3); (5000, 0.2)] /\
  Forall (fun p => 0 <= snd p) [(4000, 0.3); (5000, 0.2)] /\
  exists corr, Extinction.extinction_correction [3000; 4500; 6000] 1.5
                 [(4000, 0.3); (5000, 0.2)] = Ok corr /\
    length corr = length [3000; 4500; 6000] /\ Forall (fun c => 1 <= c)%R corr.
Proof.
  assert (H1 : 1 <= 1.5) by (vm_compute; discriminate).
  assert (H2 : Sorted (fun p q => fst p < fst q) [(4000, 0.3); (5000, 0.2)])
    by (repeat constructor; vm_compute; reflexivity).
  assert (H3 : Forall (fun p => 0 <= snd p) [(4000, 0.3); (5000, 0.2)])
    by (repeat constructor; vm_compute; discriminate).
  split; [exact H1|]. split; [exact H2|]. split; [exact H3|].
  exact (extinction_correction_at_least_one [3000; 4500; 6000] 1.5 _ H1 H2 H3).
Defined.

(** ** apply_sensfunc, apply_sensfunc_spec and generate_sensfunc *)

Open Scope Q_scope.

(** apply_sensfunc_spec with extinction correction: a missing longitude or
    latitude is a [msgs.error]; an airmass below 1 is a [msgs.error],
    whether or not the site is known; an unknown site
    ([load_extinction_data] returning [None]) with an airmass of at least
    1 is a [TypeError]. *)
Theorem apply_sensfunc_spec_errors
    (load_extinction_data : Q -> Q -> option Extinction.table) (wave : list Q)
    (counts ivar sensfunc : list R) (airmass : Q) (exptime : R)
    (mask : option (list bool)) (telluric : option (list R)) :
  (forall longitude latitude : option Q, longitude = None \/ latitude = None ->
     Applier.apply_sensfunc_spec load_extinction_data wave counts ivar sensfunc airmass
       exptime mask true telluric longitude latitude = Err PypeItError) /\
  (forall lon lat : Q, load_extinction_data lon lat = None -> 1 <= airmass ->
     Applier.apply_sensfunc_spec load_extinction_data wave counts ivar sensfunc airmass
       exptime mask true telluric (Some lon) (Some lat) = Err TypeError) /\
  (forall lon lat : Q, airmass < 1 ->
     Applier.apply_sensfunc_spec load_extinction_data wave counts ivar sensfunc airmass
       exptime mask true telluric (Some lon) (Some lat) = Err PypeItError).
Proof.
  unfold Applier.apply_sensfunc_spec, Applier.senstot.
  split; [|split].
  - intros lon lat [-> | ->]; [reflexivity|destruct lon; reflexivity].
  - intros lon lat Hl Ham; rewrite Hl.
    destruct (Qlt_le_dec airmass 1) as [Hlt|]; [|reflexivity].
    exfalso; apply (Qlt_not_le _ _ Hlt Ham).
  - intros lon lat Ham. destruct (load_extinction_data lon lat) as [ext|];
      [unfold Extinction.extinction_correction|];
      (destruct (Qlt_le_dec airmass 1) as [|Hge]; [reflexivity|]);
      exfalso; apply (Qlt_not_le _ _ Ham Hge).
Qed.

Lemma map2_andb_true_l {B} (g : B -> bool) (m : list bool) (l : list B) i :
  nth_error (Np.map2 (fun b x => b && g x) m l) i = Some true -> nth_error m i = Some true.
Proof.
  revert l i; induction m as [|b m IH]; intros [|x l] [|i] H; simpl in *; try discriminate.
  - injection H; intros E; apply andb_prop in E as [-> _]; reflexivity.
  - exact (IH _ _ H).
Qed.

(** apply_sensfunc_spec: a pixel set in [outmask] is set in the given
    [mask], or, without a mask, has a positive inverse variance. *)
Theorem apply_sensfunc_spec_outmask_within_mask
    (load_extinction_data : Q -> Q -> option Extinction.table) (wave : list Q)
    (counts ivar sensfunc : list R) (airmass : Q) (exptime : R)
    (mask : option (list bool)) (extinct_correct : bool) (telluric : option (list R))
    (longitude latitude : option Q) (out : Applier.spec_output) (i : nat) :
  Applier.apply_sensfunc_spec load_extinction_data wave counts ivar sensfunc airmass
    exptime mask extinct_correct telluric longitude latitude = Ok out ->
  nth_error (Applier.outmask out) i = Some true ->
  match mask with
  | Some m => nth_error m i = Some true
  | None => exists v, nth_error ivar i = Some v /\ (0 < v)%R
  end.
Proof.
  unfold Applier.apply_sensfunc_spec.
  destruct (Applier.senstot _ _ _ _ _ _ _ _) as [st|e]; cbn [bind]; [|discriminate].
  intros H; injection H; clear H; intros <-; cbn [Applier.outmask].
  intros Hi; apply map2_andb_true_l in Hi.
  destruct mask as [m|]; [exact Hi|].
  rewrite nth_error_map in Hi.
  destruct (nth_error ivar i) as [v|]; [|discriminate].
  cbn [option_map] in Hi; injection Hi; intros Hv.
  exists v; split; [reflexivity|].
  unfold Applier.Rltb in Hv; destruct (Rlt_dec 0 v); [assumption|discriminate].
Qed.

(** apply_sensfunc: where the sensitivity or the inverse variance is not
    positive, FLAM_SIG and FLAM_IVAR are 0; elsewhere FLAM_IVAR is
    positive and FLAM_SIG is [1/sqrt(FLAM_IVAR)]. *)
Theorem apply_sensfunc_flam_sig_consistent (counts counts_ivar senstot : list R)
    (exptime : R) (i : nat) (s v : R) :
  (0 < exptime)%R ->
  nth_error senstot i = Some s -> nth_error counts_ivar i = Some v ->
  let out := Applier.apply_sensfunc_fluxes counts counts_ivar senstot exptime in
  ((s <= 0 \/ v <= 0)%R ->
     nth_error (Applier.FLAM_SIG out) i = Some 0%R /\
     nth_error (Applier.FLAM_IVAR out) i = Some 0%R) /\
  ((0 < s)%R -> (0 < v)%R ->
     exists sig ivar, nth_error (Applier.FLAM_SIG out) i = Some sig /\
       nth_error (Applier.FLAM_IVAR out) i = Some ivar /\
       (0 < ivar)%R /\ sig = (/ sqrt ivar)%R).
Proof.
  intros He Hs Hv out. unfold out, Applier.apply_sensfunc_fluxes.
  cbn [Applier.FLAM_SIG Applier.FLAM_IVAR].
  assert (Hm : nth_error (Np.map2 (fun s v : R => Applier.Rleb s 0%R || Applier.Rleb v 0%R)
                            senstot counts_ivar) i
               = Some (Applier.Rleb s 0 || Applier.Rleb v 0))
    by exact (nth_error_map2 (fun s v : R => Applier.Rleb s 0%R || Applier.Rleb v 0%R)
                _ _ _ _ _ Hs Hv).
  assert (Hsig := nth_error_map2 (fun v s => (s / exptime) / sqrt v)%R _ _ _ _ _ Hv Hs).
  assert (Hvar := nth_error_map2 (fun v s => v / (s / exptime) ^ 2)%R _ _ _ _ _ Hv Hs).
  split.
  - intros Hbad.
    assert (Hb : (Applier.Rleb s 0 || Applier.Rleb v 0) = true).
    { destruct Hbad; [rewrite Rleb_true by lra; reflexivity|].
      rewrite (Rleb_true v 0) by lra; apply orb_true_r. }
    rewrite Hb in Hm.
    split; erewrite nth_error_map2 by eassumption; reflexivity.
  - intros Hs0 Hv0.
    rewrite (Rleb_false s 0), (Rleb_false v 0) in Hm by lra. cbn [orb] in Hm.
    do 2 eexists. split; [erewrite nth_error_map2 by eassumption; reflexivity|].
    split; [erewrite nth_error_map2 by eassumption; reflexivity|]. cbv beta.
    assert (Hse : (0 < s / exptime)%R) by (apply Rdiv_lt_0_compat; assumption).
    split.
    + apply Rdiv_lt_0_compat; [assumption|]. apply pow_lt; assumption.
    + rewrite sqrt_div_alt by (apply pow_lt; assumption).
      rewrite <- Rsqr_pow2, sqrt_Rsqr by lra.
      assert (Hsq : (0 < sqrt v)%R) by (apply sqrt_lt_R0; assumption).
      field; split; lra.
Qed.

Lemma apply_sensfunc_flam_sig_consistent_witness :
  (0 < 1)%R /\ nth_error [2%R] 0 = Some 2%R /\ nth_error [4%R] 0 = Some 4%R /\
  let out := Applier.apply_sensfunc_fluxes [10%R] [4%R] [2%R] 1%R in
  (((2 <= 0)%R \/ (4 <= 0)%R) ->
     nth_error (Applier.FLAM_SIG out) 0 = Some 0%R /\
     nth_error (Applier.FLAM_IVAR out) 0 = Some 0%R) /\
  ((0 < 2)%R -> (0 < 4)%R ->
     exists sig ivar, nth_error (Applier.FLAM_SIG out) 0 = Some sig /\
       nth_error (Applier.FLAM_IVAR out) 0 = Some ivar /\
       (0 < ivar)%R /\ sig = (/ sqrt ivar)%R).
Proof.
  assert (He : (0 < 1)%R) by lra.
  split; [exact He|]. split; [reflexivity|]. split; [reflexivity|].
  exact (apply_sensfunc_flam_sig_consistent [10%R] [4%R] [2%R] 1%R 0 2%R 4%R He
           eq_refl eq_refl).
Defined.

Section GeneratorErrors.

Variable load_extinction_data : Q -> Q -> option Extinction.table.
Variable trans_final : list Q -> list Q.
Variable get_standard_spectrum : option string -> option Q -> option Q -> option Q ->
  result Sensfunc.std_spectrum.
Variable flux_true_of : Sensfunc.std_spectrum -> list Q -> list R.
Variable standard_sensfunc :
  list Q -> list R -> list R -> list R -> list bool -> list bool -> list bool ->
  nat -> Q -> Q -> bool -> Q -> bool -> list R * list bool.

(** generate_sensfunc: with an airmass of at least 1 an unknown site is a
    [TypeError]; an airmass below 1 is a [msgs.error], whether or not the
    site is known; this holds whatever the other arguments. *)
Theorem generate_sensfunc_site_airmass_errors
    (wave : list Q) (counts counts_ivar : list R) (airmass : Q) (exptime : R)
    (longitude latitude : Q) (telluric : bool) (star_type : option string)
    (star_mag ra dec : option Q) (std_file : option string) (poly_norder : nat)
    (BALM_MASK_WID nresln resolution trans_thresh : Q) (polycorrect : bool) :
  let run := Sensfunc.generate_sensfunc load_extinction_data trans_final
    get_standard_spectrum flux_true_of standard_sensfunc wave counts counts_ivar airmass
    exptime longitude latitude telluric star_type star_mag ra dec std_file poly_norder
    BALM_MASK_WID nresln resolution trans_thresh polycorrect in
  (load_extinction_data longitude latitude = None -> 1 <= airmass -> run = Err TypeError) /\
  (airmass < 1 -> run = Err PypeItError).
Proof.
  intros run; unfold run, Sensfunc.generate_sensfunc, Sensfunc.generate_with_get_mask_kw.
  split.
  - intros Hl Ham; rewrite Hl.
    destruct (Qlt_le_dec airmass 1) as [Hlt|]; [|reflexivity].
    exfalso; apply (Qlt_not_le _ _ Hlt Ham).
  - intros Ham. destruct (load_extinction_data longitude latitude) as [ext|]; cbn [bind];
      [unfold Extinction.extinction_correction|];
      (destruct (Qlt_le_dec airmass 1) as [|Hge]; [reflexivity|]);
      exfalso; apply (Qlt_not_le _ _ Ham Hge).
Qed.

End GeneratorErrors.

(** ** find_standard *)

Open Scope Q_scope.

Lemma Qltb_iff (x y : Q) : Qltb x y = true <-> x < y.
Proof.
  split; [|apply Qltb_true]. intros H. apply Qnot_le_lt; intros H'.
  rewrite (Qltb_false _ _ H') in H; discriminate.
Qed.

(* ---------- find_standard ---------- *)

Lemma argmax_from_spec (l : list Q) (p : list Q) (bi : nat) (bv : Q) :
  (bi < length p)%nat -> nth bi p 0 = bv ->
  (forall j, (j < length p)%nat -> nth j p 0 <= bv) ->
  (forall j, (j < bi)%nat -> nth j p 0 < bv) ->
  let r := FindStandard.argmax_from l (length p) bi bv in
  (r < length (p ++ l))%nat /\
  (forall j, (j < length (p ++ l))%nat -> nth j (p ++ l) 0 <= nth r (p ++ l) 0) /\
  (forall j, (j < r)%nat -> nth j (p ++ l) 0 < nth r (p ++ l) 0).
Proof.
  revert p bi bv; induction l as [|x l IH]; intros p bi bv Hbi Hbv Hle Hlt r.
  - unfold r; cbn [FindStandard.argmax_from]; rewrite app_nil_r.
    rewrite Hbv; repeat split; auto.
  - unfold r; cbn [FindStandard.argmax_from].
    replace (p ++ x :: l) with ((p ++ [x]) ++ l) by (rewrite <- app_assoc; reflexivity).
    assert (Hlen : length (p ++ [x]) = S (length p)) by (rewrite length_app; simpl; lia).
    assert (Hx : nth (length p) (p ++ [x]) 0 = x)
      by (rewrite app_nth2, Nat.sub_diag by lia; reflexivity).
    assert (Hp : forall j, (j < length p)%nat -> nth j (p ++ [x]) 0 = nth j p 0)
      by (intros; rewrite app_nth1 by lia; reflexivity).
    destruct (Qltb bv x) eqn:E.
    + apply Qltb_iff in E.
      rewrite <- Hlen. apply IH; [rewrite Hlen; lia|exact Hx| |].
      * intros j Hj. rewrite Hlen in Hj.
        destruct (Nat.eq_dec j (length p)) as [->|]; [rewrite Hx; apply Qle_refl|].
        rewrite Hp by lia. apply Qlt_le_weak, (Qle_lt_trans _ bv); [apply Hle; lia|exact E].
      * intros j Hj. rewrite Hp by lia. apply (Qle_lt_trans _ bv); [apply Hle; lia|exact E].
    + assert (E' : x <= bv)
        by (unfold Qltb in E; apply negb_false_iff, Qle_bool_iff in E; exact E).
      rewrite <- Hlen. apply IH; [rewrite Hlen; lia|rewrite Hp by lia; exact Hbv| |].
      * intros j Hj. rewrite Hlen in Hj.
        destruct (Nat.eq_dec j (length p)) as [->|]; [rewrite Hx; exact E'|].
        rewrite Hp by lia. apply Hle; lia.
      * intros j Hj. rewrite Hp by lia. apply Hlt; lia.
Qed.

(** find_standard: on objects with non-empty boxcar counts, the index
    returned is that of the first object with the largest median count
    ([None] objects counting 0); there is no index only for an empty list. *)
Theorem find_standard_first_brightest (specobj_list : list (option (list Q))) :
  Forall (fun o => match o with Some counts => counts <> [] | None => True end)
    specobj_list ->
  let medfx := FindStandard.medfx specobj_list in
  match FindStandard.find_standard specobj_list with
  | None => specobj_list = []
  | Some i =>
      (i < length specobj_list)%nat /\
      (forall j, (j < length specobj_list)%nat -> nth j medfx 0 <= nth i medfx 0) /\
      (forall j, (j < i)%nat -> nth j medfx 0 < nth i medfx 0)
  end.
Proof.
  intros _ medfx. unfold FindStandard.find_standard, FindStandard.argmax.
  assert (Hl : length medfx = length specobj_list) by apply length_map.
  fold medfx. rewrite <- Hl.
  destruct medfx as [|x l] eqn:Em.
  - destruct specobj_list; [reflexivity|discriminate].
  - pose proof (argmax_from_spec l [x] 0 x) as H. cbn [length app] in H.
    apply H; auto.
    + intros j Hj; destruct j; [apply Qle_refl|lia].
    + intros j Hj; lia.
Qed.

Lemma find_standard_first_brightest_witness :
  Forall (fun o => match o with Some counts => counts <> [] | None => True end)
    [None; Some [1; 5; 3]; Some [2; 4]] /\
  let medfx := FindStandard.medfx [None; Some [1; 5; 3]; Some [2; 4]] in
  match FindStandard.find_standard [None; Some [1; 5; 3]; Some [2; 4]] with
  | None => [None; Some [1; 5; 3]; Some [2; 4]] = []
  | Some i =>
      (i < length [None; Some [1; 5; 3]; Some [2; 4]])%nat /\
      (forall j, (j < length [None; Some [1; 5; 3]; Some [2; 4]])%nat ->
         nth j medfx 0 <= nth i medfx 0) /\
      (forall j, (j < i)%nat -> nth j medfx 0 < nth i medfx 0)
  end.
Proof.
  assert (H : Forall (fun o => match o with Some counts => counts <> [] | None => True end)
                [None; Some [1; 5; 3]; Some [2; 4]])
    by (repeat constructor; discriminate).
  split; [exact H|]. exact (find_standard_first_brightest _ H).
Defined.

(** ** load_standard_file and load_filter_file *)

Open Scope Q_scope.
Lemma flux_scale_inv (f : R) : (f / RMath.PYPEIT_FLUX_SCALE = f * 1e17)%R.
Proof.
  unfold RMath.PYPEIT_FLUX_SCALE. rewrite Q2R_div by (intros H; vm_compute in H; discriminate).
  unfold Q2R; cbn [Qnum Qden].
  assert (H : IZR (Z.pow_pos 10 17) <> 0%R) by (apply not_0_IZR; vm_compute; discriminate).
  field.
Qed.

(** load_standard_file: no file is a [TypeError]; xshooter and calspec
    fluxes are divided by [PYPEIT_FLUX_SCALE] (multiplied by 1e17), ESO
    fluxes are kept, wavelengths are the first column, and any other
    source is a [msgs.error]. *)
Theorem load_standard_file_sources (std_spec : list (R * R)) (std_source : string) :
  Loaders.load_standard_file None std_source = Err TypeError /\
  Loaders.load_standard_file (Some std_spec) "xshooter" =
    Ok (map fst std_spec, map (fun f => f * 1e17)%R (map snd std_spec)) /\
  Loaders.load_standard_file (Some std_spec) "calspec" =
    Loaders.load_standard_file (Some std_spec) "xshooter" /\
  Loaders.load_standard_file (Some std_spec) "eso" = Ok (map fst std_spec, map snd std_spec) /\
  (~ In std_source ["xshooter"; "calspec"; "eso"]%string ->
   Loaders.load_standard_file (Some std_spec) std_source = Err PypeItError).
Proof.
  split; [reflexivity|]. split; [|split; [reflexivity|split; [reflexivity|]]].
  - cbn [Loaders.load_standard_file String.eqb Ascii.eqb Bool.eqb]. rewrite map_map.
    do 2 f_equal. apply map_ext; intros [w f]; cbn [snd]. apply flux_scale_inv.
  - intros Hn. unfold Loaders.load_standard_file.
    destruct (String.eqb_spec std_source "xshooter") as [->|];
      [exfalso; apply Hn; left; reflexivity|].
    destruct (String.eqb_spec std_source "calspec") as [->|];
      [exfalso; apply Hn; right; left; reflexivity|].
    destruct (String.eqb_spec std_source "eso") as [->|];
      [exfalso; apply Hn; right; right; left; reflexivity|].
    reflexivity.
Qed.

(** load_filter_file: an unknown filter is a [msgs.error]; a known one
    gives the curve's points with positive response, in order, as two
    columns of equal length. *)
Theorem load_filter_file_positive (allowed_options : list string)
    (curves : string -> list (R * R)) (filt : string) :
  (~ In filt allowed_options ->
   Loaders.load_filter_file allowed_options curves filt = Err PypeItError) /\
  (In filt allowed_options ->
   exists wave instr,
     Loaders.load_filter_file allowed_options curves filt = Ok (wave, instr) /\
     combine wave instr = filter (fun p => Applier.Rltb 0 (snd p)) (curves filt) /\
     length wave = length instr /\ Forall (fun t => 0 < t)%R instr).
Proof.
  unfold Loaders.load_filter_file. split.
  - intros Hn. destruct (existsb (String.eqb filt) allowed_options) eqn:E; [|reflexivity].
    apply existsb_exists in E as [x [Hx Ex]]. apply String.eqb_eq in Ex; subst.
    contradiction.
  - intros Hin. replace (existsb (String.eqb filt) allowed_options) with true
      by (symmetry; apply existsb_exists; exists filt; split; [exact Hin|apply String.eqb_refl]).
    cbn [negb]. do 2 eexists; split; [reflexivity|].
    set (keep := filter _ _).
    assert (Hk : Forall (fun p => Applier.Rltb 0 (snd p) = true) keep)
      by (apply Forall_forall; intros p Hp; apply filter_In in Hp; apply Hp).
    split; [|split; [rewrite !length_map; reflexivity|]].
    + clearbody keep; clear Hk. induction keep as [|[a b] k IH]; [reflexivity|].
      cbn [map combine fst snd]. f_equal; exact IH.
    + apply Forall_map. eapply Forall_impl; [|exact Hk]. intros [a b] H; cbn [snd] in *.
      unfold Applier.Rltb in H; destruct (Rlt_dec 0 b); [assumption|discriminate].
Qed.

(** ** scale_in_filter *)

Open Scope Q_scope.

Open Scope R_scope.

(** scale_in_filter: an absent ['mag_type'] key is a [KeyError], raised
    before anything else; with the key present, an unknown filter is a
    [msgs.error]. *)
Theorem scale_in_filter_errors (allowed_options : list string)
    (curves : string -> list (R * R)) (xspec : ScaleFilter.xspectrum)
    (d : ScaleFilter.scale_dict) :
  (ScaleFilter.sc_mag_type d = None ->
   ScaleFilter.scale_in_filter allowed_options curves xspec d = Err KeyError) /\
  (ScaleFilter.sc_mag_type d <> None -> ~ In (ScaleFilter.sc_filter d) allowed_options ->
   ScaleFilter.scale_in_filter allowed_options curves xspec d = Err PypeItError).
Proof.
  unfold ScaleFilter.scale_in_filter, Loaders.load_filter_file.
  destruct (ScaleFilter.sc_mag_type d) as [mt|]; [|split; [reflexivity|intros []; reflexivity]].
  split; [discriminate|]. cbn [bind].
  intros _ Hn. destruct (existsb _ allowed_options) eqn:E; [|reflexivity].
  apply existsb_exists in E as [x [Hx Ex]]. apply String.eqb_eq in Ex; subst. contradiction.
Qed.

Lemma filter_map_commute {A} (P : A -> bool) (g : A -> A) (l : list A) :
  (forall x, P (g x) = P x) -> filter P (map g l) = map g (filter P l).
Proof.
  intros H; induction l as [|a l IH]; [reflexivity|].
  cbn [map filter]. rewrite H. destruct (P a); [cbn [map]; f_equal|]; exact IH.
Qed.

Lemma good_pixels_scaled (w f s : list R) (masks : option (option (list (R * R)))) (c : R) :
  0 < c ->
  ScaleFilter.good_pixels {| ScaleFilter.wavelength := w;
                             ScaleFilter.xflux := map (fun x => x * c) f;
                             ScaleFilter.xsig := map (fun x => x * c) s |} masks =
  map (fun p => (fst p, snd p * c))
    (ScaleFilter.good_pixels {| ScaleFilter.wavelength := w; ScaleFilter.xflux := f;
                                ScaleFilter.xsig := s |} masks).
Proof.
  intros Hc. unfold ScaleFilter.good_pixels; cbn [ScaleFilter.wavelength ScaleFilter.xflux
    ScaleFilter.xsig].
  assert (Hgd : map fst (filter (fun p => Applier.Rltb 0 (snd p))
                           (combine (combine w (map (fun x => x * c) f))
                              (map (fun x => x * c) s))) =
                map (fun p => (fst p, snd p * c))
                  (map fst (filter (fun p => Applier.Rltb 0 (snd p))
                              (combine (combine w f) s)))).
  { revert f s; induction w as [|a w IH]; intros [|b f] [|e s]; try reflexivity.
    cbn [map combine filter snd].
    destruct (Rlt_dec 0 e) as [He|He].
    - rewrite (Rltb_true 0 e He), (Rltb_true 0 (e * c)) by nra. cbn [map fst snd].
      f_equal. apply IH.
    - rewrite (Rltb_false 0 e), (Rltb_false 0 (e * c)) by nra. apply IH. }
  rewrite Hgd. destruct masks as [[ms|]|]; try reflexivity.
  apply filter_map_commute. intros [a b]; reflexivity.
Qed.

Lemma filter_fnu_scaled (fwave trans : list R) (wf : list (R * R)) (c : R) :
  ScaleFilter.filter_fnu fwave trans (map (fun p => (fst p, snd p * c)) wf) =
  c * ScaleFilter.filter_fnu fwave trans wf.
Proof.
  unfold ScaleFilter.filter_fnu. rewrite !map_map; cbn [fst snd].
  set (t := fun x : R * R => RMath.interp1d_fill0R (combine fwave trans) (fst x)).
  assert (Hs : RMath.sumR (Np.map2 Rmult (map (fun x => snd x * c) wf) (map t wf)) =
               RMath.sumR (Np.map2 Rmult (map snd wf) (map t wf)) * c).
  { unfold RMath.sumR; induction wf as [|p wf IH]; cbn [map Np.map2 fold_right]; [ring|].
    rewrite IH. ring. }
  rewrite Hs. unfold Rdiv. ring.
Qed.

Lemma ln10_pos : 0 < ln 10.
Proof. rewrite <- ln_1. apply ln_increasing; lra. Qed.

(** scale_in_filter: the scale is positive, the wavelengths are unchanged,
    and the AB magnitude of the scaled spectrum through the same filter
    is the requested magnitude. *)
Theorem scale_in_filter_round_trip (allowed_options : list string)
    (curves : string -> list (R * R)) (xspec : ScaleFilter.xspectrum)
    (d : ScaleFilter.scale_dict) (new_spec : ScaleFilter.xspectrum) (scale : R)
    (fwave trans : list R) :
  Loaders.load_filter_file allowed_options curves (ScaleFilter.sc_filter d) = Ok (fwave, trans) ->
  0 < ScaleFilter.filter_fnu fwave trans (ScaleFilter.good_pixels xspec (ScaleFilter.sc_masks d)) ->
  ScaleFilter.scale_in_filter allowed_options curves xspec d = Ok (new_spec, scale) ->
  0 < scale /\
  ScaleFilter.wavelength new_spec = ScaleFilter.wavelength xspec /\
  ScaleFilter.AB_mag (ScaleFilter.filter_fnu fwave trans
    (ScaleFilter.good_pixels new_spec (ScaleFilter.sc_masks d))) = ScaleFilter.sc_mag d.
Proof.
  intros Hload Hfnu Hrun.
  unfold ScaleFilter.scale_in_filter in Hrun. rewrite Hload in Hrun.
  destruct (ScaleFilter.sc_mag_type d) as [[t|]|]; cbn [bind fst snd] in Hrun; try discriminate.
  destruct (String.eqb t "AB"); [|discriminate].
  injection Hrun; clear Hrun; intros <- <-.
  set (fnu := ScaleFilter.filter_fnu fwave trans _) in *.
  set (sc := Rpower 10 _).
  assert (Hsc : 0 < sc) by (unfold sc, Rpower; apply exp_pos).
  split; [exact Hsc|]. split; [reflexivity|].
  destruct xspec as [w f s]; cbn [ScaleFilter.wavelength ScaleFilter.xflux ScaleFilter.xsig] in *.
  rewrite good_pixels_scaled by exact Hsc. rewrite filter_fnu_scaled. fold fnu.
  unfold ScaleFilter.AB_mag, RMath.log10.
  rewrite ln_mult by assumption.
  unfold sc at 1, Rpower. rewrite ln_exp.
  pose proof ln10_pos.
  unfold ScaleFilter.AB_mag, RMath.log10, Q2R; cbn [Qnum Qden]. field. lra.
Qed.

(** ** telluric_sed *)

Open Scope Q_scope.

Open Scope R_scope.

Lemma Rpower10_pos (x : R) : 0 < Rpower 10 x.
Proof. unfold Rpower; apply exp_pos. Qed.

Lemma flux_factor_shift (Rr pc a b : R) :
  0 < pc ->
  (Rr / (pc * Rpower 10 (a + b))) ^ 2 =
  (Rr / (pc * Rpower 10 a)) ^ 2 * Rpower 10 (- (b + b)).
Proof.
  intros Hpc. rewrite Rpower_plus, Rpower_Ropp, Rpower_plus.
  pose proof (Rpower10_pos a). pose proof (Rpower10_pos b).
  field. repeat split; lra.
Qed.

Lemma telluric_sed_V_shift (sk82_tab : list Kurucz.sk82_row)
    (kurucz : Z -> nat -> list (R * R)) (V1 V2 : R) (sptype : string)
    (loglam flux : list R) :
  Kurucz.telluric_sed sk82_tab kurucz V1 sptype = Ok (loglam, flux) ->
  Kurucz.telluric_sed sk82_tab kurucz V2 sptype =
    Ok (loglam, map (fun f => f * Rpower 10 (0.4 * (V1 - V2))) flux).
Proof.
  unfold Kurucz.telluric_sed.
  destruct (Kurucz.telluric_params sk82_tab sptype) as [tp|e]; cbn [bind]; [|discriminate].
  intros H.
  pose proof (f_equal (fun r => match r with Ok x => x | Err _ => (loglam, flux) end) H) as E.
  cbv beta iota in E.
  apply pair_equal_spec in E; destruct E as [E1 E2]. subst loglam flux.
  rewrite map_map.
  match goal with |- Ok (?a, _) = Ok (?a, _) => apply (f_equal (fun l => Ok (a, l))) end.
  apply map_ext; intros [w f]; cbn [snd].
  set (a := 0.2 * (V1 - Q2R (Kurucz.tp_M_V tp)) + 1.0).
  replace (0.2 * (V2 - Q2R (Kurucz.tp_M_V tp)) + 1.0) with (a + 0.2 * (V2 - V1))
    by (unfold a; ring).
  rewrite flux_factor_shift.
  - replace (- (0.2 * (V2 - V1) + 0.2 * (V2 - V1))) with (0.4 * (V1 - V2))
      by (unfold Q2R; cbn [Qnum Qden]; field).
    ring.
  - unfold Kurucz.parsec, Q2R; cbn [Qnum Qden].
    apply Rmult_lt_0_compat; [apply IZR_lt; reflexivity|].
    apply Rinv_0_lt_compat, IZR_lt; reflexivity.
Qed.

(** telluric_sed: changing the V magnitude from [V1] to [V2] keeps the
    wavelengths and multiplies every flux by [10^(0.4 (V1 - V2))]. *)
Theorem telluric_sed_magnitude_scaling (sk82_tab : list Kurucz.sk82_row)
    (kurucz : Z -> nat -> list (R * R)) (V1 V2 : R) (sptype : string)
    (loglam flux : list R) :
  Kurucz.telluric_sed sk82_tab kurucz V1 sptype = Ok (loglam, flux) ->
  Kurucz.telluric_sed sk82_tab kurucz V2 sptype =
    Ok (loglam, map (fun f => f * Rpower 10 (0.4 * (V1 - V2))) flux).
Proof. apply telluric_sed_V_shift. Qed.

(** ** standard_sensfunc *)

Open Scope R_scope.

Lemma Rltb_iff (x y : R) : Applier.Rltb x y = true <-> x < y.
Proof. unfold Applier.Rltb; destruct (Rlt_dec x y); split; intros; auto; discriminate. Qed.

Lemma nth_error_map2_inv {A B C} (f : A -> B -> C) l1 l2 i c :
  nth_error (Np.map2 f l1 l2) i = Some c ->
  exists a b, nth_error l1 i = Some a /\ nth_error l2 i = Some b /\ c = f a b.
Proof.
  revert l2 i; induction l1 as [|x l1 IH]; intros [|y l2] [|i] H; simpl in *;
    try discriminate.
  - injection H; intros <-; eauto.
  - apply IH; assumption.
Qed.

Lemma clip_bounds (m : R) :
  StdSensfunc.MAGFUNC_MIN <= StdSensfunc.clip m <= StdSensfunc.MAGFUNC_MAX.
Proof.
  unfold StdSensfunc.clip.
  assert (Hmm : StdSensfunc.MAGFUNC_MIN <= StdSensfunc.MAGFUNC_MAX)
    by (unfold StdSensfunc.MAGFUNC_MIN, StdSensfunc.MAGFUNC_MAX, Q2R; cbn [Qnum Qden]; lra).
  split; [apply Rmax_r|].
  apply Rmax_lub; [apply Rmin_r|exact Hmm].
Qed.

Lemma clip_inside (x : R) :
  0.99 * StdSensfunc.MAGFUNC_MIN < StdSensfunc.clip x < 0.99 * StdSensfunc.MAGFUNC_MAX ->
  Rabs x < 0.99 * StdSensfunc.MAGFUNC_MAX.
Proof.
  unfold StdSensfunc.clip, StdSensfunc.MAGFUNC_MIN, StdSensfunc.MAGFUNC_MAX.
  unfold Q2R; cbn [Qnum Qden].
  unfold Rmax, Rmin.
  destruct (Rle_dec x _); destruct (Rle_dec _ _); intros H; apply Rabs_def1; lra.
Qed.

(** standard_sensfunc: a pixel set in [masktot] is set in the given
    [msk_bad], and there the standard and observed log-fluxes differ by
    less than [0.99 * MAGFUNC_MAX] magnitudes. *)
Theorem standard_sensfunc_masktot_sound
    (robust_polyfit_eval : list Q -> list R -> list bool -> nat -> list R)
    (bspline_logfit : list Q -> list R -> list R -> list bool -> list bool -> Q -> list R)
    (wave : list Q) (flux ivar flux_std : list R)
    (msk_bad msk_star msk_tell : option (list bool)) (poly_norder : nat)
    (BALM_MASK_WID nresln : Q) (telluric : bool) (resolution : Q) (polycorrect : bool)
    (i : nat) :
  nth_error (snd (StdSensfunc.standard_sensfunc robust_polyfit_eval bspline_logfit
                    wave flux ivar flux_std msk_bad msk_star msk_tell poly_norder
                    BALM_MASK_WID nresln telluric resolution polycorrect)) i = Some true ->
  (forall m, msk_bad = Some m -> nth_error m i = Some true) /\
  exists fo fs, nth_error flux i = Some fo /\ nth_error flux_std i = Some fs /\
    Rabs (StdSensfunc.logflux fs - StdSensfunc.logflux fo) < 0.99 * StdSensfunc.MAGFUNC_MAX.
Proof.
  unfold StdSensfunc.standard_sensfunc. cbv zeta beta. cbn [snd].
  intros H. apply nth_error_map2_inv in H as (b & mg & Hb & Hmg & Hbm).
  symmetry in Hbm; apply andb_true_iff in Hbm as [-> Hmg'].
  split.
  - intros m ->; exact Hb.
  - rewrite nth_error_map in Hmg.
    destruct (nth_error (map StdSensfunc.clip _) i) as [c|] eqn:Ec; [|discriminate].
    cbn in Hmg; injection Hmg; intros <-.
    rewrite nth_error_map in Ec.
    destruct (nth_error (Np.map2 Rminus _ _) i) as [x|] eqn:Ex; [|discriminate].
    cbn in Ec; injection Ec; intros <-.
    apply nth_error_map2_inv in Ex as (ls & lo & Hls & Hlo & ->).
    rewrite nth_error_map in Hls, Hlo.
    destruct (nth_error flux_std i) as [fs|]; [|discriminate].
    destruct (nth_error flux i) as [fo|]; [|discriminate].
    cbn in Hls, Hlo; injection Hls; injection Hlo; intros <- <-.
    exists fo, fs; split; [reflexivity|split; [reflexivity|]].
    apply andb_true_iff in Hmg' as [H1 H2]; apply Rltb_iff in H1, H2.
    apply clip_inside; split; assumption.
Qed.

Lemma Rpower_clip_bounds (m : R) :
  Rpower 10 (-10) <= Rpower 10 (0.4 * StdSensfunc.clip m) <= Rpower 10 10.
Proof.
  pose proof (clip_bounds m) as [H1 H2].
  unfold StdSensfunc.MAGFUNC_MIN, StdSensfunc.MAGFUNC_MAX in *.
  split; apply Rle_Rpower; try lra; unfold Q2R in *; cbn [Qnum Qden] in *; lra.
Qed.

(** standard_sensfunc: without the polynomial correction, every value of the
    sensitivity function lies between [10^-10] and [10^10]. *)
Theorem standard_sensfunc_bounded_without_polycorrect
    (robust_polyfit_eval : list Q -> list R -> list bool -> nat -> list R)
    (bspline_logfit : list Q -> list R -> list R -> list bool -> list bool -> Q -> list R)
    (wave : list Q) (flux ivar flux_std : list R)
    (msk_bad msk_star msk_tell : option (list bool)) (poly_norder : nat)
    (BALM_MASK_WID nresln : Q) (telluric : bool) (resolution : Q) :
  Forall (fun s => Rpower 10 (-10) <= s <= Rpower 10 10)
    (fst (StdSensfunc.standard_sensfunc robust_polyfit_eval bspline_logfit
            wave flux ivar flux_std msk_bad msk_star msk_tell poly_norder
            BALM_MASK_WID nresln telluric resolution false)).
Proof.
  unfold StdSensfunc.standard_sensfunc. cbv zeta beta. cbn [fst].
  rewrite andb_false_r.
  apply Forall_forall; intros s Hs.
  apply in_map_iff in Hs as (m & <- & Hm).
  destruct telluric; apply in_map_iff in Hm as (x & <- & _); apply Rpower_clip_bounds.
Qed.

(** ** get_standard_spectrum *)

Open Scope R_scope.

Section SpectrumScaling.

Variable sep_of : string -> string -> StdFile.star -> Q.
Variables xshooter calspec eso : StdFile.std_set.
Variable std_files : string -> option (list (R * R)).
Variable vega_data : list (R * R).
Variable sk82_tab : list Kurucz.sk82_row.
Variable kurucz : Z -> nat -> list (R * R).

Lemma get_standard_spectrum_typed (star_type : string) (m : R) (ra dec : option string) :
  StdSpectrum.get_standard_spectrum sep_of xshooter calspec eso std_files vega_data
    sk82_tab kurucz (Some star_type) (Some m) ra dec =
  StdSpectrum.get_standard_spectrum sep_of xshooter calspec eso std_files vega_data
    sk82_tab kurucz (Some star_type) (Some m) None None.
Proof. destruct ra, dec; reflexivity. Qed.

(** get_standard_spectrum: with a type and a magnitude, the coordinates are
    ignored, and changing the magnitude from [m1] to [m2] keeps the
    record and the wavelengths and multiplies every flux by
    [10^(0.4 (m1 - m2))]. *)
Theorem get_standard_spectrum_magnitude_scaling (star_type : string) (m1 m2 : R)
    (ra1 dec1 ra2 dec2 : option string) (s1 : StdSpectrum.std_model) :
  StdSpectrum.get_standard_spectrum sep_of xshooter calspec eso std_files vega_data
    sk82_tab kurucz (Some star_type) (Some m1) ra1 dec1 = Ok s1 ->
  StdSpectrum.get_standard_spectrum sep_of xshooter calspec eso std_files vega_data
    sk82_tab kurucz (Some star_type) (Some m2) ra2 dec2 =
  Ok {| StdSpectrum.m_cal_file := StdSpectrum.m_cal_file s1;
        StdSpectrum.m_name := StdSpectrum.m_name s1;
        StdSpectrum.m_std_source := StdSpectrum.m_std_source s1;
        StdSpectrum.m_std_ra := StdSpectrum.m_std_ra s1;
        StdSpectrum.m_std_dec := StdSpectrum.m_std_dec s1;
        StdSpectrum.m_wave := StdSpectrum.m_wave s1;
        StdSpectrum.m_flux := map (fun f => f * Rpower 10 (0.4 * (m1 - m2)))
                                (StdSpectrum.m_flux s1) |}.
Proof.
  assert (Hsc : 0 < RMath.PYPEIT_FLUX_SCALE)
    by (unfold RMath.PYPEIT_FLUX_SCALE, Q2R; cbn [Qnum Qden];
        apply Rmult_lt_0_compat; [apply IZR_lt; reflexivity|
                                  apply Rinv_0_lt_compat, IZR_lt; reflexivity]).
  rewrite (get_standard_spectrum_typed _ m1 ra1 dec1), (get_standard_spectrum_typed _ m2 ra2 dec2).
  unfold StdSpectrum.get_standard_spectrum; cbv beta iota.
  destruct (StdSpectrum.contains "A0" star_type).
  - intros H.
    pose proof (f_equal (fun r => match r with Ok x => x | Err _ => s1 end) H) as E.
    cbv beta iota in E; subst s1; cbn [StdSpectrum.m_cal_file StdSpectrum.m_name
      StdSpectrum.m_std_source StdSpectrum.m_std_ra StdSpectrum.m_std_dec
      StdSpectrum.m_wave StdSpectrum.m_flux].
    rewrite map_map.
    assert (Ef : map (fun p => snd p * Rpower 10 (0.4 * (0.03 - m2)) / RMath.PYPEIT_FLUX_SCALE)
                   vega_data =
                 map (fun p => snd p * Rpower 10 (0.4 * (0.03 - m1)) / RMath.PYPEIT_FLUX_SCALE
                               * Rpower 10 (0.4 * (m1 - m2))) vega_data).
    { apply map_ext; intros p.
      replace (0.4 * (0.03 - m2)) with (0.4 * (0.03 - m1) + 0.4 * (m1 - m2)) by ring.
      rewrite Rpower_plus. field. lra. }
    rewrite Ef; reflexivity.
  - destruct (Kurucz.telluric_sed sk82_tab kurucz m1 star_type) as [[ll fl]|e] eqn:E1;
      cbn [bind]; [|discriminate].
    rewrite (telluric_sed_V_shift _ _ _ m2 _ _ _ E1); cbn [bind fst snd].
    intros H.
    pose proof (f_equal (fun r => match r with Ok x => x | Err _ => s1 end) H) as E.
    cbv beta iota in E; subst s1; cbn [StdSpectrum.m_cal_file StdSpectrum.m_name
      StdSpectrum.m_std_source StdSpectrum.m_std_ra StdSpectrum.m_std_dec
      StdSpectrum.m_wave StdSpectrum.m_flux].
    rewrite !map_map.
    assert (Ef : map (fun f => f * Rpower 10 (0.4 * (m1 - m2)) / RMath.PYPEIT_FLUX_SCALE) fl =
                 map (fun f => f / RMath.PYPEIT_FLUX_SCALE * Rpower 10 (0.4 * (m1 - m2))) fl).
    { apply map_ext; intros f. field. lra. }
    rewrite Ef; reflexivity.
Qed.

End SpectrumScaling.

(** ** instances (Q data) *)

Open Scope Q_scope.

Lemma get_mask_bad_interior_witness :
  nth_error (fst (fst (Sensfunc.get_mask (fun w => w)
    {| Sensfunc.a_wave_star := [4000; 5000; 6000]; Sensfunc.a_flux_star := [1; 1; 1]%R;
       Sensfunc.a_ivar_star := [1; 1; 1]%R; Sensfunc.a_mask_star := false;
       Sensfunc.a_mask_tell := false; Sensfunc.a_BALM_MASK_WID := 10;
       Sensfunc.a_trans_thresh := 0.9 |}))) 1 = Some true /\
  (0 < 1 < length ([4000; 5000; 6000]%Q : list Q) - 1)%nat /\
  3000.0 < nth 1 [4000; 5000; 6000] 0 /\
  (0 < nth 1 [1; 1; 1] 0)%R /\ (0 < nth 1 [1; 1; 1] 0)%R.
Proof.
  assert (H : nth_error (fst (fst (Sensfunc.get_mask (fun w => w)
    {| Sensfunc.a_wave_star := [4000; 5000; 6000]; Sensfunc.a_flux_star := [1; 1; 1]%R;
       Sensfunc.a_ivar_star := [1; 1; 1]%R; Sensfunc.a_mask_star := false;
       Sensfunc.a_mask_tell := false; Sensfunc.a_BALM_MASK_WID := 10;
       Sensfunc.a_trans_thresh := 0.9 |}))) 1 = Some true).
  { unfold Sensfunc.get_mask.
    cbv beta iota zeta delta [fst snd nth_error map combine seq length Sensfunc.a_wave_star
      Sensfunc.a_flux_star Sensfunc.a_ivar_star].
    rewrite (Rleb_false 1 0) by lra. reflexivity. }
  split; [exact H|].
  exact (get_mask_bad_interior _ _ 1 H).
Defined.

Lemma get_mask_tell_optical_bands_witness :
  let a := {| Sensfunc.a_wave_star := [6280]; Sensfunc.a_flux_star := [1]%R;
              Sensfunc.a_ivar_star := [1]%R; Sensfunc.a_mask_star := true;
              Sensfunc.a_mask_tell := true; Sensfunc.a_BALM_MASK_WID := 10;
              Sensfunc.a_trans_thresh := 0.9 |} in
  Sensfunc.a_mask_tell a = true /\
  nth_error (Sensfunc.a_wave_star a) 0 = Some 6280 /\
  (6270.00 <= 6280 <= 6290.00 \/ 6850.00 <= 6280 <= 6960.00 \/ 7580.00 <= 6280 <= 7750.00 \/
   7160.00 <= 6280 <= 7340.00 \/ 8150.00 <= 6280 <= 8250.00) /\
  nth_error (snd (Sensfunc.get_mask (fun w => w) a)) 0 <> Some true.
Proof.
  intros a.
  assert (H1 : Sensfunc.a_mask_tell a = true) by reflexivity.
  assert (H2 : nth_error (Sensfunc.a_wave_star a) 0 = Some 6280) by reflexivity.
  assert (H3 : 6270.00 <= 6280 <= 6290.00 \/ 6850.00 <= 6280 <= 6960.00 \/
               7580.00 <= 6280 <= 7750.00 \/ 7160.00 <= 6280 <= 7340.00 \/
               8150.00 <= 6280 <= 8250.00)
    by (left; split; apply Qle_bool_iff; reflexivity).
  split; [exact H1|split; [exact H2|split; [exact H3|]]].
  exact (get_mask_tell_optical_bands _ a 0 6280 H1 H2 H3).
Defined.

Lemma get_mask_blue_ignores_transmission_witness :
  let a := {| Sensfunc.a_wave_star := [4000; 5000]; Sensfunc.a_flux_star := [1; 1]%R;
              Sensfunc.a_ivar_star := [1; 1]%R; Sensfunc.a_mask_star := true;
              Sensfunc.a_mask_tell := true; Sensfunc.a_BALM_MASK_WID := 10;
              Sensfunc.a_trans_thresh := 0.9 |} in
  Sensfunc.qmax (Sensfunc.a_wave_star a) <= 9100.0 /\
  Sensfunc.get_mask (fun w => w) a = Sensfunc.get_mask (fun _ => []) (Sensfunc.with_trans_thresh a 0.5).
Proof.
  intros a.
  assert (H : Sensfunc.qmax (Sensfunc.a_wave_star a) <= 9100.0)
    by (apply Qle_bool_iff; reflexivity).
  split; [exact H|].
  exact (get_mask_blue_ignores_transmission _ _ a 0.5 H).
Defined.

Lemma deal_with_outside_low_hold_witness :
  (0 < 2 < length ([0; -1; 0.5; 0.3]%Q : list Q))%nat /\
  0 < nth 2 [0; -1; 0.5; 0.3] 0 /\
  (forall j, (j < 2)%nat -> nth j [0; -1; 0.5; 0.3] 0 <= 0) /\
  (forall i, (i < 2)%nat ->
     nth i (Extinction.deal_with_outside [0; -1; 0.5; 0.3]) 0 = nth 2 [0; -1; 0.5; 0.3] 0).
Proof.
  assert (H1 : (0 < 2 < length ([0; -1; 0.5; 0.3]%Q : list Q))%nat) by (cbn; lia).
  assert (H2 : 0 < nth 2 [0; -1; 0.5; 0.3] 0) by reflexivity.
  assert (H3 : forall j, (j < 2)%nat -> nth j [0; -1; 0.5; 0.3] 0 <= 0)
    by (intros [|[|j]] Hj; [| |lia]; apply Qle_bool_iff; reflexivity).
  split; [exact H1|split; [exact H2|split; [exact H3|]]].
  exact (deal_with_outside_low_hold _ 2 H1 H2 H3).
Defined.

Lemma deal_with_outside_high_hold_witness :
  0 < nth 0 [0.5; 0.3; 0; -1] 0 /\
  (1 < length ([0.5; 0.3; 0; -1]%Q : list Q) - 1)%nat /\
  0 < nth 1 [0.5; 0.3; 0; -1] 0 /\
  (forall j, (1 < j)%nat -> nth j [0.5; 0.3; 0; -1] 0 <= 0) /\
  (forall i, (1 < i < length ([0.5; 0.3; 0; -1]%Q : list Q))%nat ->
     nth i (Extinction.deal_with_outside [0.5; 0.3; 0; -1]) 0 = nth 1 [0.5; 0.3; 0; -1] 0).
Proof.
  assert (H1 : 0 < nth 0 [0.5; 0.3; 0; -1] 0) by reflexivity.
  assert (H2 : (1 < length ([0.5; 0.3; 0; -1]%Q : list Q) - 1)%nat) by (cbn; lia).
  assert (H3 : 0 < nth 1 [0.5; 0.3; 0; -1] 0) by reflexivity.
  assert (H4 : forall j, (1 < j)%nat -> nth j [0.5; 0.3; 0; -1] 0 <= 0)
    by (intros [|[|[|[|j]]]] Hj; try lia; try (apply Qle_bool_iff; reflexivity);
        destruct j; apply Qle_bool_iff; reflexivity).
  split; [exact H1|split; [exact H2|split; [exact H3|split; [exact H4|]]]].
  exact (deal_with_outside_high_hold _ 1 H1 H2 H3 H4).
Defined.

(** ** instances (R data) *)

Open Scope R_scope.
Open Scope string_scope.

Lemma apply_sensfunc_spec_outmask_within_mask_witness :
  exists out,
    Applier.apply_sensfunc_spec (fun _ _ => None) [5000%Q] [10] [4] [2] 1%Q 1
      None false None None None = Ok out /\
    nth_error (Applier.outmask out) 0 = Some true /\
    exists v, nth_error [4] 0 = Some v /\ 0 < v.
Proof.
  eexists. split; [reflexivity|].
  assert (H : nth_error (Applier.outmask
    {| Applier.flam := Np.map2 (fun c s => c * s / 1) [10] [2];
       Applier.flam_ivar := Np.map2 (fun v s => v / (s / 1) ^ 2) [4] [2];
       Applier.outmask := Np.map2 (fun m s => m && Applier.Rltb 0 s)
                            (map (fun v => Applier.Rltb 0 v) [4]) [2] |}) 0 = Some true).
  { cbn [Applier.outmask Np.map2 map nth_error].
    rewrite (Rltb_true 0 4), (Rltb_true 0 2) by lra. reflexivity. }
  split; [exact H|].
  exact (apply_sensfunc_spec_outmask_within_mask (fun _ _ => None) [5000%Q] [10] [4] [2]
           1%Q 1 None false None None None _ 0 eq_refl H).
Defined.

Lemma telluric_sed_magnitude_scaling_witness :
  exists loglam flux,
    Kurucz.telluric_sed
      [{| Kurucz.Sp := "A0V"; Kurucz.logTeff := 3.982; Kurucz.Teff := 9600;
          Kurucz.BV_0 := 0; Kurucz.M_V := 0.6; Kurucz.BC := -0.3;
          Kurucz.M_bol := 0.3; Kurucz.L_Lsol := 1.83 |}%Q]
      (fun _ _ => [(1000, 2)]) 10 "A0V" = Ok (loglam, flux) /\
    Kurucz.telluric_sed
      [{| Kurucz.Sp := "A0V"; Kurucz.logTeff := 3.982; Kurucz.Teff := 9600;
          Kurucz.BV_0 := 0; Kurucz.M_V := 0.6; Kurucz.BC := -0.3;
          Kurucz.M_bol := 0.3; Kurucz.L_Lsol := 1.83 |}%Q]
      (fun _ _ => [(1000, 2)]) 12 "A0V" =
      Ok (loglam, map (fun f => f * Rpower 10 (0.4 * (10 - 12))) flux).
Proof.
  do 2 eexists.
  assert (H : Kurucz.telluric_sed
      [{| Kurucz.Sp := "A0V"; Kurucz.logTeff := 3.982; Kurucz.Teff := 9600;
          Kurucz.BV_0 := 0; Kurucz.M_V := 0.6; Kurucz.BC := -0.3;
          Kurucz.M_bol := 0.3; Kurucz.L_Lsol := 1.83 |}%Q]
      (fun _ _ => [(1000, 2)]) 10 "A0V" = Ok (_, _)) by reflexivity.
  split; [exact H|].
  exact (telluric_sed_magnitude_scaling _ _ 10 12 "A0V" _ _ H).
Defined.

Lemma get_standard_spectrum_magnitude_scaling_witness :
  exists s1,
    StdSpectrum.get_standard_spectrum (fun _ _ _ => 0%Q)
      {| StdFile.path := "xshooter"; StdFile.star_tbl := [] |}
      {| StdFile.path := "calspec"; StdFile.star_tbl := [] |}
      {| StdFile.path := "esofil"; StdFile.star_tbl := [] |}
      (fun _ => None) [(5000, 1)] [] (fun _ _ => [])
      (Some "A0V") (Some 10) None None = Ok s1 /\
    StdSpectrum.get_standard_spectrum (fun _ _ _ => 0%Q)
      {| StdFile.path := "xshooter"; StdFile.star_tbl := [] |}
      {| StdFile.path := "calspec"; StdFile.star_tbl := [] |}
      {| StdFile.path := "esofil"; StdFile.star_tbl := [] |}
      (fun _ => None) [(5000, 1)] [] (fun _ _ => [])
      (Some "A0V") (Some 12) (Some "00:00:00") (Some "+00:00:00") =
    Ok {| StdSpectrum.m_cal_file := StdSpectrum.m_cal_file s1;
          StdSpectrum.m_name := StdSpectrum.m_name s1;
          StdSpectrum.m_std_source := StdSpectrum.m_std_source s1;
          StdSpectrum.m_std_ra := StdSpectrum.m_std_ra s1;
          StdSpectrum.m_std_dec := StdSpectrum.m_std_dec s1;
          StdSpectrum.m_wave := StdSpectrum.m_wave s1;
          StdSpectrum.m_flux := map (fun f => f * Rpower 10 (0.4 * (10 - 12)))
                                  (StdSpectrum.m_flux s1) |}.
Proof.
  eexists.
  assert (H : StdSpectrum.get_standard_spectrum (fun _ _ _ => 0%Q)
      {| StdFile.path := "xshooter"; StdFile.star_tbl := [] |}
      {| StdFile.path := "calspec"; StdFile.star_tbl := [] |}
      {| StdFile.path := "esofil"; StdFile.star_tbl := [] |}
      (fun _ => None) [(5000, 1)] [] (fun _ _ => [])
      (Some "A0V") (Some 10) None None = Ok _) by reflexivity.
  split; [exact H|].
  exact (get_standard_spectrum_magnitude_scaling _ _ _ _ _ _ _ _ "A0V" 10 12 None None
           (Some "00:00:00") (Some "+00:00:00") _ H).
Defined.

Lemma standard_sensfunc_masktot_sound_witness :
  nth_error (snd (StdSensfunc.standard_sensfunc (fun _ _ _ _ => [])
                    (fun _ _ _ _ _ _ => []) [5000%Q] [1] [1] [1] None None None 3
                    10%Q 2%Q false 3000%Q false)) 0 = Some true /\
  (forall m, (None : option (list bool)) = Some m -> nth_error m 0 = Some true) /\
  exists fo fs, nth_error [1] 0 = Some fo /\ nth_error [1] 0 = Some fs /\
    Rabs (StdSensfunc.logflux fs - StdSensfunc.logflux fo) < 0.99 * StdSensfunc.MAGFUNC_MAX.
Proof.
  assert (H : nth_error (snd (StdSensfunc.standard_sensfunc (fun _ _ _ _ => [])
                    (fun _ _ _ _ _ _ => []) [5000%Q] [1] [1] [1] None None None 3
                    10%Q 2%Q false 3000%Q false)) 0 = Some true).
  { unfold StdSensfunc.standard_sensfunc.
    cbv beta iota zeta delta [snd nth_error map Np.map2].
    rewrite Rminus_diag.
    assert (Hc : StdSensfunc.clip 0 = 0).
    { unfold StdSensfunc.clip, StdSensfunc.MAGFUNC_MAX, StdSensfunc.MAGFUNC_MIN.
      rewrite Rmin_left, Rmax_left; [reflexivity| |];
        unfold Q2R; cbn [Qnum Qden]; lra. }
    rewrite Hc.
    rewrite (Rltb_true 0), (Rltb_true _ 0);
      [reflexivity| |]; unfold StdSensfunc.MAGFUNC_MAX, StdSensfunc.MAGFUNC_MIN, Q2R;
      cbn [Qnum Qden]; lra. }
  split; [exact H|].
  exact (standard_sensfunc_masktot_sound _ _ [5000%Q] [1] [1] [1] None None None 3
           10%Q 2%Q false 3000%Q false 0 H).
Defined.

Lemma scale_in_filter_round_trip_witness :
  exists new_spec scale,
    Loaders.load_filter_file ["F"] (fun _ => [(4000, 1); (6000, 1)]) "F" =
      Ok ([4000; 6000], [1; 1]) /\
    0 < ScaleFilter.filter_fnu [4000; 6000] [1; 1]
          (ScaleFilter.good_pixels
             {| ScaleFilter.wavelength := [5000]; ScaleFilter.xflux := [1];
                ScaleFilter.xsig := [1] |} None) /\
    ScaleFilter.scale_in_filter ["F"] (fun _ => [(4000, 1); (6000, 1)])
      {| ScaleFilter.wavelength := [5000]; ScaleFilter.xflux := [1]; ScaleFilter.xsig := [1] |}
      {| ScaleFilter.sc_filter := "F"; ScaleFilter.sc_mag := 15;
         ScaleFilter.sc_mag_type := Some (Some "AB"); ScaleFilter.sc_masks := None |} =
      Ok (new_spec, scale) /\
    0 < scale /\ ScaleFilter.wavelength new_spec = [5000] /\
    ScaleFilter.AB_mag (ScaleFilter.filter_fnu [4000; 6000] [1; 1]
      (ScaleFilter.good_pixels new_spec None)) = 15.
Proof.
  assert (H1 : Loaders.load_filter_file ["F"] (fun _ => [(4000, 1); (6000, 1)]) "F" =
                 Ok ([4000; 6000], [1; 1])).
  { unfold Loaders.load_filter_file. cbv beta iota delta [negb existsb String.eqb filter snd].
    rewrite (Rltb_true 0 1) by lra. reflexivity. }
  assert (H2 : 0 < ScaleFilter.filter_fnu [4000; 6000] [1; 1]
          (ScaleFilter.good_pixels
             {| ScaleFilter.wavelength := [5000]; ScaleFilter.xflux := [1];
                ScaleFilter.xsig := [1] |} None)).
  { unfold ScaleFilter.good_pixels.
    cbv beta iota zeta delta [ScaleFilter.wavelength ScaleFilter.xflux ScaleFilter.xsig
      combine filter snd map fst].
    rewrite (Rltb_true 0 1) by lra.
    unfold ScaleFilter.filter_fnu.
    cbv beta iota zeta delta [map fst snd combine RMath.interp1d_fill0R last].
    destruct (Rlt_dec 5000 4000); [lra|].
    destruct (Rlt_dec 6000 5000); [lra|].
    unfold RMath.interp_segR. destruct (Rle_dec 5000 6000); [|lra].
    unfold RMath.sumR; cbn [Np.map2 fold_right map].
    assert (HS : 0 < RMath.PYPEIT_FLUX_SCALE)
      by (unfold RMath.PYPEIT_FLUX_SCALE, Q2R; cbn [Qnum Qden];
          apply Rmult_lt_0_compat; [apply IZR_lt; reflexivity|
                                    apply Rinv_0_lt_compat, IZR_lt; reflexivity]).
    assert (Hc : 0 < ScaleFilter.c_AA)
      by (unfold ScaleFilter.c_AA, Q2R; cbn [Qnum Qden];
          apply Rmult_lt_0_compat; [apply IZR_lt; reflexivity|
                                    apply Rinv_0_lt_compat, IZR_lt; reflexivity]).
    replace (1 + (1 - 1) / (6000 - 4000) * (5000 - 4000)) with 1 by (field; lra).
    apply Rdiv_lt_0_compat; [|exact Hc].
    apply Rmult_lt_0_compat; [apply Rmult_lt_0_compat; [lra|exact HS]|].
    apply pow_lt; lra. }
  do 2 eexists.
  eassert (H3 : ScaleFilter.scale_in_filter ["F"] (fun _ => [(4000, 1); (6000, 1)])
      {| ScaleFilter.wavelength := [5000]; ScaleFilter.xflux := [1]; ScaleFilter.xsig := [1] |}
      {| ScaleFilter.sc_filter := "F"; ScaleFilter.sc_mag := 15;
         ScaleFilter.sc_mag_type := Some (Some "AB"); ScaleFilter.sc_masks := None |} =
      Ok (_, _)).
  { unfold ScaleFilter.scale_in_filter. cbn [ScaleFilter.sc_mag_type ScaleFilter.sc_filter
      ScaleFilter.sc_masks bind]. rewrite H1. reflexivity. }
  split; [exact H1|split; [exact H2|split; [exact H3|]]].
  exact (scale_in_filter_round_trip ["F"] (fun _ => [(4000, 1); (6000, 1)])
    {| ScaleFilter.wavelength := [5000]; ScaleFilter.xflux := [1]; ScaleFilter.xsig := [1] |}
    {| ScaleFilter.sc_filter := "F"; ScaleFilter.sc_mag := 15;
       ScaleFilter.sc_mag_type := Some (Some "AB"); ScaleFilter.sc_masks := None |}
    _ _ [4000; 6000] [1; 1] H1 H2 H3).
Defined.
